(** * Modal: open/close state machine, focus memento and portal rendering

    Shallow embedding of [src/modal/modal.js].  The component instance
    ([this]) and the parts of the browser and of React it talks to (the
    document, timers, animation frames, refs, the host's [onClose]) are one
    explicit [World]; every method is a computation in a small state and
    exception monad over it. *)

From stdpp Require Import gmap strings list fin_maps.

Local Open Scope string_scope.
Local Open Scope list_scope.
Local Open Scope nat_scope.
Local Set Warnings "-register-all".

(** ** Values of the host environment *)

(** A DOM element.  [el_focus] tells whether the element has a [focus]
    method (not all elements in IE11 have one). *)
Record Element := { el_id : nat; el_focus : bool }.

#[global] Instance Element_eq_dec : EqDecision Element.
Proof. solve_decision. Defined.

(** A React ref object.  [OwnRef] objects are the ones [React.createRef()]
    returns to this component; [HostRef] objects were created by the host
    application and reach the component through [overrides]. *)
Inductive ElementRefT :=
| HostRef (n : nat)
| OwnRef (n : nat).

#[global] Instance ElementRefT_eq_dec : EqDecision ElementRefT.
Proof. solve_decision. Defined.

#[global] Instance ElementRefT_countable : Countable ElementRefT.
Proof.
  refine (inj_countable'
    (fun r => match r with HostRef n => inl n | OwnRef n => inr n end)
    (fun s => match s with inl n => HostRef n | inr n => OwnRef n end) _).
  by intros [].
Defined.

(** Modelled from the spec: [./constants] is not part of the source tree.
    [CloseSourceT] is the tagged enum {escape, backdrop, closeButton}; each
    value is a non-empty tag, hence truthy in [close]'s test. *)
Inductive CloseSourceT := SrcCloseButton | SrcBackdrop | SrcEscape.

#[global] Instance CloseSourceT_eq_dec : EqDecision CloseSourceT.
Proof. solve_decision. Defined.

Module CLOSE_SOURCE.
(** Modelled from the spec: the [closeButton] tag of [./constants]. *)
Definition closeButton := SrcCloseButton.
(** Modelled from the spec: the [backdrop] tag of [./constants]. *)
Definition backdrop := SrcBackdrop.
(** Modelled from the spec: the [escape] tag of [./constants]. *)
Definition escape := SrcEscape.
End CLOSE_SOURCE.

Module ROLE.
(** Modelled from the spec: [./constants] is not part of the source tree;
    [role] ranges over {dialog, alertdialog}. *)
Definition dialog : string := "dialog".
(** Modelled from the spec: the other role of [./constants]. *)
Definition alertdialog : string := "alertdialog".
End ROLE.

Module SIZE.
(** Modelled from the spec: [./constants] is not part of the source tree;
    [size] ranges over {default, ...} and only styling reads it. *)
Definition default : string := "default".
End SIZE.

(** The two click handlers the component hands to its slots, and handlers
    of the host's own. *)
Inductive Handler :=
| BackdropClickHandler
| CloseClickHandler
| HostHandler (n : nat).

Inductive Component :=
| StyledRoot
| StyledBackdrop
| StyledDialog
| StyledDialogContainer
| StyledClose
| CloseIcon
| HostComponent (n : nat).

Inductive PropVal :=
| VBool (b : bool)
| VStr (s : string)
| VRef (r : ElementRefT)
| VHandler (h : Handler)
| VOpaque (n : nat).

(** A props object is a JS object used as a map. *)
Abbreviation PropsObj := (gmap string PropVal).

(** [{...a, ...b}]: keys of [b] win. *)
Definition spread (a b : PropsObj) : PropsObj := b ∪ a.

Inductive ReactNode :=
| RNull
| RHost (n : nat)
| RElement (type : Component) (eprops : PropsObj) (echildren : list ReactNode).

Record Portal := createPortal { portal_child : ReactNode; portal_container : Element }.

(** A value the host puts in the props of an override.  A handler of the
    host's is never one of the component's own. *)
Inductive HostVal :=
| HBool (b : bool)
| HStr (s : string)
| HRef (r : ElementRefT)
| HHandler (n : nat)
| HOpaque (n : nat).

Definition hostVal (v : HostVal) : PropVal :=
  match v with
  | HBool b => VBool b
  | HStr s => VStr s
  | HRef r => VRef r
  | HHandler n => VHandler (HostHandler n)
  | HOpaque n => VOpaque n
  end.

(** Modelled from the spec: [../helpers/overrides] is not part of the source
    tree.  An override pairs a replacement element with extra props. *)
Record OverrideT := {
  ov_component : option Component;
  ov_props : gmap string HostVal;
}.

(** Modelled from the spec: [getOverride] of [../helpers/overrides], the
    replacement element of an override, if it has one. *)
Definition getOverride (o : option OverrideT) : option Component :=
  o ≫= ov_component.

(** Modelled from the spec: [getOverrideProps] of [../helpers/overrides],
    the extra props of an override; [{}] without one. *)
Definition getOverrideProps (o : option OverrideT) : PropsObj :=
  hostVal <$> from_option ov_props ∅ o.

(** [children]: an element, or a function returning one. *)
Inductive ChildrenT :=
| ChildNode (n : nat)
| ChildFn (result : nat).

(** ** Props, state, instance *)

Record ModalPropsT := {
  animate : bool;
  autofocus : bool;
  closeable : bool;
  isOpen : bool;
  mountNode : option Element;
  onClose : option nat;
  overrides : gmap string OverrideT;
  role : string;
  size : string;
  children : ChildrenT;
}.

Record ModalStateT := { isVisible : bool; mounted : bool }.

(** Timer and frame handles are integers greater than zero, so a handle
    that was assigned is always truthy. *)
Abbreviation TimeoutID := positive.
Abbreviation AnimationFrameID := positive.

Record Modal := {
  props : ModalPropsT;
  state : ModalStateT;
  animateOutTimer : option TimeoutID;
  animateStartTimer : option AnimationFrameID;
  lastFocus : option Element;
  _refs : gmap string ElementRefT;
}.

(** ** The environment *)

Inductive Callback :=
| CbAnimateOutComplete        (* [this.animateOutComplete] *)
| CbAnimateStart.             (* [() => this.setState({isVisible: true})] *)

Inductive Phase := Constructed | Attached | Detached.

#[global] Instance Phase_eq_dec : EqDecision Phase.
Proof. solve_decision. Defined.

Record Host := {
  BROWSER : bool;                         (* [__BROWSER__] *)
  phase : Phase;                          (* React: is the instance in the tree *)
  keyupListener : bool;                   (* document 'keyup' -> onDocumentKeyPress *)
  timeouts : gmap positive (nat * Callback);   (* pending setTimeout: due time *)
  frames : gmap positive Callback;        (* pending requestAnimationFrame *)
  nextTimeout : positive;
  nextFrame : positive;
  now : nat;
  body : option Element;                  (* [document.body] *)
  activeElement : option Element;
  focusCalls : list Element;              (* every [.focus()] performed *)
  scrollTop : gmap nat nat;               (* by [el_id] *)
  refCurrent : gmap ElementRefT Element;  (* [ref.current] *)
  nextRef : nat;
  onCloseCalls : list (nat * CloseSourceT);   (* calls of the host's callback *)
}.

Record World := { this : Modal; env : Host }.

(** *** Field updates *)

Definition with_state (s : ModalStateT) (m : Modal) : Modal :=
  {| props := props m; state := s; animateOutTimer := animateOutTimer m;
     animateStartTimer := animateStartTimer m; lastFocus := lastFocus m;
     _refs := _refs m |}.

Definition with_props (p : ModalPropsT) (m : Modal) : Modal :=
  {| props := p; state := state m; animateOutTimer := animateOutTimer m;
     animateStartTimer := animateStartTimer m; lastFocus := lastFocus m;
     _refs := _refs m |}.

Definition with_animateOutTimer (t : option TimeoutID) (m : Modal) : Modal :=
  {| props := props m; state := state m; animateOutTimer := t;
     animateStartTimer := animateStartTimer m; lastFocus := lastFocus m;
     _refs := _refs m |}.

Definition with_animateStartTimer (t : option AnimationFrameID) (m : Modal) : Modal :=
  {| props := props m; state := state m; animateOutTimer := animateOutTimer m;
     animateStartTimer := t; lastFocus := lastFocus m; _refs := _refs m |}.

Definition with_lastFocus (e : option Element) (m : Modal) : Modal :=
  {| props := props m; state := state m; animateOutTimer := animateOutTimer m;
     animateStartTimer := animateStartTimer m; lastFocus := e;
     _refs := _refs m |}.

Definition with_refs (r : gmap string ElementRefT) (m : Modal) : Modal :=
  {| props := props m; state := state m; animateOutTimer := animateOutTimer m;
     animateStartTimer := animateStartTimer m; lastFocus := lastFocus m;
     _refs := r |}.

Definition with_phase (p : Phase) (h : Host) : Host :=
  {| BROWSER := BROWSER h; phase := p; keyupListener := keyupListener h;
     timeouts := timeouts h; frames := frames h; nextTimeout := nextTimeout h;
     nextFrame := nextFrame h; now := now h; body := body h;
     activeElement := activeElement h; focusCalls := focusCalls h;
     scrollTop := scrollTop h; refCurrent := refCurrent h;
     nextRef := nextRef h; onCloseCalls := onCloseCalls h |}.

Definition with_keyupListener (b : bool) (h : Host) : Host :=
  {| BROWSER := BROWSER h; phase := phase h; keyupListener := b;
     timeouts := timeouts h; frames := frames h; nextTimeout := nextTimeout h;
     nextFrame := nextFrame h; now := now h; body := body h;
     activeElement := activeElement h; focusCalls := focusCalls h;
     scrollTop := scrollTop h; refCurrent := refCurrent h;
     nextRef := nextRef h; onCloseCalls := onCloseCalls h |}.

Definition with_timeouts (t : gmap positive (nat * Callback)) (n : positive)
    (h : Host) : Host :=
  {| BROWSER := BROWSER h; phase := phase h; keyupListener := keyupListener h;
     timeouts := t; frames := frames h; nextTimeout := n;
     nextFrame := nextFrame h; now := now h; body := body h;
     activeElement := activeElement h; focusCalls := focusCalls h;
     scrollTop := scrollTop h; refCurrent := refCurrent h;
     nextRef := nextRef h; onCloseCalls := onCloseCalls h |}.

Definition with_frames (f : gmap positive Callback) (n : positive)
    (h : Host) : Host :=
  {| BROWSER := BROWSER h; phase := phase h; keyupListener := keyupListener h;
     timeouts := timeouts h; frames := f; nextTimeout := nextTimeout h;
     nextFrame := n; now := now h; body := body h;
     activeElement := activeElement h; focusCalls := focusCalls h;
     scrollTop := scrollTop h; refCurrent := refCurrent h;
     nextRef := nextRef h; onCloseCalls := onCloseCalls h |}.

Definition with_now (t : nat) (h : Host) : Host :=
  {| BROWSER := BROWSER h; phase := phase h; keyupListener := keyupListener h;
     timeouts := timeouts h; frames := frames h; nextTimeout := nextTimeout h;
     nextFrame := nextFrame h; now := t; body := body h;
     activeElement := activeElement h; focusCalls := focusCalls h;
     scrollTop := scrollTop h; refCurrent := refCurrent h;
     nextRef := nextRef h; onCloseCalls := onCloseCalls h |}.

Definition with_focus (a : option Element) (calls : list Element)
    (h : Host) : Host :=
  {| BROWSER := BROWSER h; phase := phase h; keyupListener := keyupListener h;
     timeouts := timeouts h; frames := frames h; nextTimeout := nextTimeout h;
     nextFrame := nextFrame h; now := now h; body := body h;
     activeElement := a; focusCalls := calls;
     scrollTop := scrollTop h; refCurrent := refCurrent h;
     nextRef := nextRef h; onCloseCalls := onCloseCalls h |}.

Definition with_scrollTop (s : gmap nat nat) (h : Host) : Host :=
  {| BROWSER := BROWSER h; phase := phase h; keyupListener := keyupListener h;
     timeouts := timeouts h; frames := frames h; nextTimeout := nextTimeout h;
     nextFrame := nextFrame h; now := now h; body := body h;
     activeElement := activeElement h; focusCalls := focusCalls h;
     scrollTop := s; refCurrent := refCurrent h;
     nextRef := nextRef h; onCloseCalls := onCloseCalls h |}.

Definition with_refCurrent (r : gmap ElementRefT Element) (h : Host) : Host :=
  {| BROWSER := BROWSER h; phase := phase h; keyupListener := keyupListener h;
     timeouts := timeouts h; frames := frames h; nextTimeout := nextTimeout h;
     nextFrame := nextFrame h; now := now h; body := body h;
     activeElement := activeElement h; focusCalls := focusCalls h;
     scrollTop := scrollTop h; refCurrent := r;
     nextRef := nextRef h; onCloseCalls := onCloseCalls h |}.

Definition with_nextRef (n : nat) (h : Host) : Host :=
  {| BROWSER := BROWSER h; phase := phase h; keyupListener := keyupListener h;
     timeouts := timeouts h; frames := frames h; nextTimeout := nextTimeout h;
     nextFrame := nextFrame h; now := now h; body := body h;
     activeElement := activeElement h; focusCalls := focusCalls h;
     scrollTop := scrollTop h; refCurrent := refCurrent h;
     nextRef := n; onCloseCalls := onCloseCalls h |}.

Definition with_onCloseCalls (l : list (nat * CloseSourceT)) (h : Host) : Host :=
  {| BROWSER := BROWSER h; phase := phase h; keyupListener := keyupListener h;
     timeouts := timeouts h; frames := frames h; nextTimeout := nextTimeout h;
     nextFrame := nextFrame h; now := now h; body := body h;
     activeElement := activeElement h; focusCalls := focusCalls h;
     scrollTop := scrollTop h; refCurrent := refCurrent h;
     nextRef := nextRef h; onCloseCalls := l |}.

Definition on_this (f : Modal -> Modal) (w : World) : World :=
  {| this := f (this w); env := env w |}.

Definition on_env (f : Host -> Host) (w : World) : World :=
  {| this := this w; env := f (env w) |}.

(** ** The monad: state over [World], with [None] for an uncaught
    [TypeError] *)

Definition M (A : Type) : Type := World -> option (A * World).

Definition ret {A} (a : A) : M A := fun w => Some (a, w).

Definition bind {A B} (m : M A) (k : A -> M B) : M B :=
  fun w => match m w with
           | Some (a, w') => k a w'
           | None => None
           end.

Definition throw {A} : M A := fun _ => None.

Definition get {A} (f : World -> A) : M A := fun w => Some (f w, w).

Definition modify (f : World -> World) : M unit := fun w => Some (tt, f w).

Notation "x <- m ;; k" := (bind m (fun x => k))
  (at level 100, m at next level, right associativity, only parsing).
Notation "m ;;; k" := (bind m (fun _ => k))
  (at level 100, right associativity, only parsing).

Definition when (b : bool) (m : M unit) : M unit :=
  if b then m else ret tt.

(** The world a computation ends in, when it does not throw. *)
Definition exec {A} (m : M A) (w : World) : option World :=
  snd <$> m w.

(** ** Primitives of the environment *)

Definition setTimeout (cb : Callback) (delay : nat) : M TimeoutID :=
  fun w =>
    let h := env w in
    let id := nextTimeout h in
    Some (id, on_env (with_timeouts (<[id := (now h + delay, cb)]> (timeouts h))
                                    (Pos.succ id)) w).

Definition clearTimeout (id : TimeoutID) : M unit :=
  modify (on_env (fun h => with_timeouts (delete id (timeouts h)) (nextTimeout h) h)).

Definition requestAnimationFrame (cb : Callback) : M AnimationFrameID :=
  fun w =>
    let h := env w in
    let id := nextFrame h in
    Some (id, on_env (with_frames (<[id := cb]> (frames h)) (Pos.succ id)) w).

Definition cancelAnimationFrame (id : AnimationFrameID) : M unit :=
  modify (on_env (fun h => with_frames (delete id (frames h)) (nextFrame h) h)).

(** [e.focus()]: a [TypeError] when [e] has no such method. *)
Definition focus (e : Element) : M unit :=
  if el_focus e
  then modify (on_env (fun h => with_focus (Some e) (focusCalls h ++ [e]) h))
  else throw.

(** [React.createRef()] *)
Definition createRef : M ElementRefT :=
  fun w =>
    let n := nextRef (env w) in
    Some (OwnRef n, on_env (with_nextRef (S n)) w).

(** [this.props.onClose(source)]: the host's callback is opaque; the call
    is recorded. *)
Definition callOnClose (f : nat) (source : CloseSourceT) : M unit :=
  modify (on_env (fun h => with_onCloseCalls (onCloseCalls h ++ [(f, source)]) h)).

(** Modelled from the spec: [./utils] ([ownerDocument]) is not part of the
    source tree.  The page has one host document, which owns every node;
    this reads its [activeElement]. *)
Definition ownerDocument_activeElement (node : option Element) : M (option Element) :=
  get (fun w => activeElement (env w)).

(** ** The methods of [Modal] *)

Definition addDomEvents : M unit :=
  b <- get (fun w => BROWSER (env w)) ;;
  when b (modify (on_env (with_keyupListener true))).

Definition removeDomEvents : M unit :=
  b <- get (fun w => BROWSER (env w)) ;;
  when b (modify (on_env (with_keyupListener false))).

Definition clearTimers : M unit :=
  t <- get (fun w => animateOutTimer (this w)) ;;
  match t with
  | Some id => clearTimeout id
  | None => ret tt
  end ;;;
  f <- get (fun w => animateStartTimer (this w)) ;;
  match f with
  | Some id => cancelAnimationFrame id
  | None => ret tt
  end.

Definition getMountNode (w : World) : option Element :=
  match mountNode (props (this w)) with
  | Some n => Some n
  | None => body (env w)
  end.

(** The override lookup reads [overrides.Dialog] whatever [component] is.
    The [$ref] of an override is a ref object, as its type says: any other
    value there counts as none. *)
Definition getRef (component : string) : M ElementRefT :=
  o <- get (fun w => overrides (props (this w)) !! "Dialog") ;;
  let overrideProps := getOverrideProps o in
  match overrideProps !! "$ref" with
  | Some (VRef overrideRef) => ret overrideRef
  | _ =>
    r <- get (fun w => _refs (this w) !! component) ;;
    match r with
    | Some r => ret r
    | None =>
      r <- createRef ;;
      modify (on_this (fun m => with_refs (<[component := r]> (_refs m)) m)) ;;;
      ret r
    end
  end.

Definition captureLastFocus : M unit :=
  a <- (n <- get getMountNode ;; ownerDocument_activeElement n) ;;
  modify (on_this (with_lastFocus a)).

Definition restoreLastFocus : M unit :=
  l <- get (fun w => lastFocus (this w)) ;;
  match l with
  | Some e =>
    when (el_focus e) (focus e) ;;;
    modify (on_this (with_lastFocus None))
  | None => ret tt
  end.

Definition autoFocus : M unit :=
  a <- get (fun w => autofocus (props (this w))) ;;
  if negb a then ret tt else
  r <- getRef "Dialog" ;;
  dialog <- get (fun w => refCurrent (env w) !! r) ;;
  match dialog with
  | None => ret tt
  | Some d => focus d
  end.

Definition open : M unit :=
  captureLastFocus ;;;
  autoFocus ;;;
  r <- getRef "Root" ;;
  rootRef <- get (fun w => refCurrent (env w) !! r) ;;
  match rootRef with
  | Some e =>
    modify (on_env (fun h => with_scrollTop (<[el_id e := 0]> (scrollTop h)) h))
  | None => ret tt
  end ;;;
  clearTimers ;;;
  addDomEvents ;;;
  id <- requestAnimationFrame CbAnimateStart ;;
  modify (on_this (with_animateStartTimer (Some id))).

Definition close (source : option CloseSourceT) : M unit :=
  f <- get (fun w => onClose (props (this w))) ;;
  match f, source with
  | Some f, Some s => callOnClose f s
  | _, _ => ret tt
  end ;;;
  removeDomEvents ;;;
  id <- setTimeout CbAnimateOutComplete 500 ;;
  modify (on_this (with_animateOutTimer (Some id))) ;;;
  restoreLastFocus.

Record KeyboardEvent := { key : string; defaultPrevented : bool }.

Definition onDocumentKeyPress (event : KeyboardEvent) : M unit :=
  if bool_decide (key event ≠ "Escape") then ret tt else
  if defaultPrevented event then ret tt else
  c <- get (fun w => closeable (props (this w))) ;;
  if negb c then ret tt else
  close (Some CLOSE_SOURCE.escape).

Definition onBackdropClick : M unit :=
  c <- get (fun w => closeable (props (this w))) ;;
  if negb c then ret tt else
  close (Some CLOSE_SOURCE.backdrop).

Definition onCloseClick : M unit :=
  close (Some CLOSE_SOURCE.closeButton).

Definition componentDidUpdate (prevProps : ModalPropsT) (prevState : ModalStateT)
    : M unit :=
  o <- get (fun w => isOpen (props (this w))) ;;
  m <- get (fun w => mounted (state (this w))) ;;
  if negb (Bool.eqb o (isOpen prevProps)) || (o && m && negb (mounted prevState))
  then (if o then open else close None)
  else ret tt.

(** *** Rendering *)

Definition getSharedProps (w : World) : PropsObj :=
  let p := props (this w) in
  list_to_map
    [ ("$animate", VBool (animate p));
      ("$isVisible", VBool (isVisible (state (this w))));
      ("$isOpen", VBool (isOpen p));
      ("$size", VStr (size p));
      ("$role", VStr (role p));
      ("$closeable", VBool (closeable p)) ].

Definition getChildren (w : World) : ReactNode :=
  match children (props (this w)) with
  | ChildNode n => RHost n
  | ChildFn n => RHost n
  end.

(** The JSX expression of [renderModal], over the values the method read
    before it. *)
Definition renderModal_jsx (p : ModalPropsT) (sharedProps : PropsObj)
    (children : ReactNode) (rootRef dialogRef : ElementRefT) : ReactNode :=
  let RootOverride := overrides p !! "Root" in
  let DialogOverride := overrides p !! "Dialog" in
  let DialogContainerOverride := overrides p !! "DialogContainer" in
  let BackdropOverride := overrides p !! "Backdrop" in
  let CloseOverride := overrides p !! "Close" in
  let Root := default StyledRoot (getOverride RootOverride) in
  let Backdrop := default StyledBackdrop (getOverride BackdropOverride) in
  let DialogContainer :=
    default StyledDialogContainer (getOverride DialogContainerOverride) in
  let Dialog := default StyledDialog (getOverride DialogOverride) in
  let Close := default StyledClose (getOverride CloseOverride) in
  RElement Root
    (spread (spread (list_to_map [("role", VStr (role p)); ("$ref", VRef rootRef)])
                    sharedProps)
            (getOverrideProps RootOverride))
    [ RElement Backdrop
        (spread (spread {["onClick" := VHandler BackdropClickHandler]} sharedProps)
                (getOverrideProps BackdropOverride))
        [];
      RElement DialogContainer
        (spread sharedProps (getOverrideProps DialogContainerOverride))
        [ RElement Dialog
            (spread (spread (list_to_map [("tabIndex", VStr "-1");
                                          ("aria-modal", VStr "true");
                                          ("role", VStr "document");
                                          ("$ref", VRef dialogRef)])
                            sharedProps)
                    (getOverrideProps DialogOverride))
            [ if closeable p
              then RElement Close
                     (spread (spread (list_to_map
                                        [("aria-label", VStr "Close");
                                         ("onClick", VHandler CloseClickHandler)])
                                     sharedProps)
                             (getOverrideProps CloseOverride))
                     [RElement CloseIcon ∅ []]
              else RNull;
              children ] ] ].

Definition renderModal : M ReactNode :=
  p <- get (fun w => props (this w)) ;;
  sharedProps <- get getSharedProps ;;
  children <- get getChildren ;;
  rootRef <- getRef "Root" ;;
  dialogRef <- getRef "Dialog" ;;
  ret (renderModal_jsx p sharedProps children rootRef dialogRef).

Definition render : M (option Portal) :=
  s <- get (fun w => state (this w)) ;;
  if negb (mounted s) then ret None else
  o <- get (fun w => isOpen (props (this w))) ;;
  if negb o && negb (isVisible s) then ret None else
  mountNode <- get getMountNode ;;
  match mountNode with
  | None => ret None
  | Some n =>
    t <- renderModal ;;
    ret (Some (createPortal t n))
  end.

(** *** React: [setState] and the lifecycle *)

(** [this.setState(partial)]: the state is merged, the component is
    rendered again and [componentDidUpdate] runs with the previous props
    and state.  On an instance that is not in the tree React does nothing. *)
Definition setState (partial : ModalStateT -> ModalStateT) : M unit :=
  ph <- get (fun w => phase (env w)) ;;
  if bool_decide (ph = Attached) then
    prevProps <- get (fun w => props (this w)) ;;
    prevState <- get (fun w => state (this w)) ;;
    modify (on_this (fun m => with_state (partial (state m)) m)) ;;;
    render ;;;
    componentDidUpdate prevProps prevState
  else ret tt.

Definition set_mounted (b : bool) (s : ModalStateT) : ModalStateT :=
  {| isVisible := isVisible s; mounted := b |}.

Definition set_isVisible (b : bool) (s : ModalStateT) : ModalStateT :=
  {| isVisible := b; mounted := mounted s |}.

Definition componentDidMount : M unit :=
  setState (set_mounted true).

Definition componentWillUnmount : M unit :=
  removeDomEvents ;;;
  clearTimers.

Definition animateOutComplete : M unit :=
  setState (set_isVisible false).

Definition runCallback (cb : Callback) : M unit :=
  match cb with
  | CbAnimateOutComplete => animateOutComplete
  | CbAnimateStart => setState (set_isVisible true)
  end.

(** ** What is on screen, and clicks on it *)

(** The render output in world [w]; the world [render] returns, which
    differs from [w] by the refs created on the way, is dropped. *)
Definition rendered (w : World) : option Portal :=
  match render w with
  | Some (Some p, _) => Some p
  | _ => None
  end.

Definition backdropSlot (root : ReactNode) : option ReactNode :=
  match root with
  | RElement _ _ (b :: _) => Some b
  | _ => None
  end.

Definition dialogSlot (root : ReactNode) : option ReactNode :=
  match root with
  | RElement _ _ [_; RElement _ _ [d]] => Some d
  | _ => None
  end.

(** The first child of the Dialog slot, unless it is [null]. *)
Definition closeSlot (root : ReactNode) : option ReactNode :=
  match dialogSlot root with
  | Some (RElement _ _ (RElement c ps cs :: _)) => Some (RElement c ps cs)
  | _ => None
  end.

(** The component's handler bound to the element's [onClick], if any. *)
Definition onClickOf (n : ReactNode) : option Handler :=
  match n with
  | RElement _ ps _ =>
    match ps !! "onClick" with
    | Some (VHandler h) => Some h
    | _ => None
    end
  | _ => None
  end.

(** A click runs the element's [onClick]; a handler of the host's own is
    outside the component. *)
Definition click (n : ReactNode) : M unit :=
  match onClickOf n with
  | Some BackdropClickHandler => onBackdropClick
  | Some CloseClickHandler => onCloseClick
  | _ => ret tt
  end.

Inductive Slot := BackdropSlot | CloseSlot.

(** The element a click on slot [s] lands on: the slot has to be on
    screen. *)
Definition clicked (s : Slot) (w : World) : option ReactNode :=
  match phase (env w), rendered w with
  | Attached, Some p =>
    match s with
    | BackdropSlot => backdropSlot (portal_child p)
    | CloseSlot => closeSlot (portal_child p)
    end
  | _, _ => None
  end.

(** ** Events of the environment *)

Inductive Event :=
| EMount                                   (* React attaches the instance *)
| ESetProps (p : ModalPropsT)              (* the host renders with new props *)
| EUnmount
| EKeyup (event : KeyboardEvent)           (* 'keyup' on the document *)
| EClick (s : Slot)                        (* a click on a rendered slot *)
| ETick (d : nat)                          (* [d] time units pass *)
| ETimeout (id : TimeoutID)                (* a due timer fires *)
| EFrame (id : AnimationFrameID)           (* a requested frame arrives *)
| EFocusMoved (e : option Element)         (* the user moves the focus *)
| ERefAttached (r : ElementRefT) (e : option Element).   (* React sets [r.current] *)

(** An event that cannot happen in the current world. *)
Definition impossible {A} : M A := throw.

(** One step of the event loop.  The result is [None] when the event cannot
    happen in [w], or when a handler ends in an uncaught [TypeError]. *)
Definition step (e : Event) : M unit :=
  match e with
  | EMount =>
    ph <- get (fun w => phase (env w)) ;;
    if bool_decide (ph = Constructed) then
      modify (on_env (with_phase Attached)) ;;;
      render ;;;
      componentDidMount
    else impossible
  | ESetProps p =>
    ph <- get (fun w => phase (env w)) ;;
    if bool_decide (ph = Attached) then
      prevProps <- get (fun w => props (this w)) ;;
      prevState <- get (fun w => state (this w)) ;;
      modify (on_this (with_props p)) ;;;
      render ;;;
      componentDidUpdate prevProps prevState
    else impossible
  | EUnmount =>
    ph <- get (fun w => phase (env w)) ;;
    if bool_decide (ph = Attached) then
      componentWillUnmount ;;;
      modify (on_env (with_phase Detached))
    else impossible
  | EKeyup event =>
    l <- get (fun w => keyupListener (env w)) ;;
    if l then onDocumentKeyPress event else ret tt
  | EClick s =>
    n <- get (clicked s) ;;
    match n with
    | Some n => click n
    | None => impossible
    end
  | ETick d =>
    modify (on_env (fun h => with_now (now h + d) h))
  | ETimeout id =>
    t <- get (fun w => timeouts (env w) !! id) ;;
    match t with
    | Some (due, cb) =>
      n <- get (fun w => now (env w)) ;;
      if bool_decide (due ≤ n)%nat then
        clearTimeout id ;;;
        runCallback cb
      else impossible
    | None => impossible
    end
  | EFrame id =>
    f <- get (fun w => frames (env w) !! id) ;;
    match f with
    | Some cb =>
      cancelAnimationFrame id ;;;
      runCallback cb
    | None => impossible
    end
  | EFocusMoved e =>
    modify (on_env (fun h => with_focus e (focusCalls h) h))
  | ERefAttached r e =>
    modify (on_env (fun h =>
      with_refCurrent (match e with
                       | Some x => <[r := x]> (refCurrent h)
                       | None => delete r (refCurrent h)
                       end) h))
  end.

Fixpoint run (es : list Event) (w : World) : option World :=
  match es with
  | [] => Some w
  | e :: es' =>
    match step e w with
    | Some (_, w') => run es' w'
    | None => None
    end
  end.

(** ** Default props and the initial world *)

(** What the host passes: every field may be left out. *)
Record HostPropsT := {
  h_animate : option bool;
  h_autofocus : option bool;
  h_closeable : option bool;
  h_isOpen : option bool;
  h_mountNode : option Element;
  h_onClose : option nat;
  h_overrides : option (gmap string OverrideT);
  h_role : option string;
  h_size : option string;
  h_children : ChildrenT;
}.

(** [static defaultProps] *)
Record DefaultPropsT := {
  d_animate : bool;
  d_autofocus : bool;
  d_closeable : bool;
  d_isOpen : bool;
  d_overrides : gmap string OverrideT;
  d_role : string;
  d_size : string;
}.

Definition defaultProps : DefaultPropsT := {|
  d_animate := true;
  d_autofocus := true;
  d_closeable := true;
  d_isOpen := false;
  d_overrides := ∅;
  d_role := ROLE.dialog;
  d_size := SIZE.default;
|}.

(** React fills every prop the host left undefined from [defaultProps]. *)
Definition resolveProps (h : HostPropsT) : ModalPropsT := {|
  animate := default (d_animate defaultProps) (h_animate h);
  autofocus := default (d_autofocus defaultProps) (h_autofocus h);
  closeable := default (d_closeable defaultProps) (h_closeable h);
  isOpen := default (d_isOpen defaultProps) (h_isOpen h);
  mountNode := h_mountNode h;
  onClose := h_onClose h;
  overrides := default (d_overrides defaultProps) (h_overrides h);
  role := default (d_role defaultProps) (h_role h);
  size := default (d_size defaultProps) (h_size h);
  children := h_children h;
|}.

(** The instance right after its constructor ran, in a fresh page. *)
Definition newModal (p : ModalPropsT) : Modal := {|
  props := p;
  state := {| isVisible := false; mounted := false |};
  animateOutTimer := None;
  animateStartTimer := None;
  lastFocus := None;
  _refs := ∅;
|}.

Definition newHost (browser : bool) (bodyEl active : option Element) : Host := {|
  BROWSER := browser;
  phase := Constructed;
  keyupListener := false;
  timeouts := ∅;
  frames := ∅;
  nextTimeout := 1%positive;
  nextFrame := 1%positive;
  now := 0;
  body := bodyEl;
  activeElement := active;
  focusCalls := [];
  scrollTop := ∅;
  refCurrent := ∅;
  nextRef := 0;
  onCloseCalls := [];
|}.

Definition initial (p : ModalPropsT) (browser : bool)
    (bodyEl active : option Element) : World :=
  {| this := newModal p; env := newHost browser bodyEl active |}.

Definition reachable (w : World) : Prop :=
  ∃ p browser bodyEl active es,
    run es (initial p browser bodyEl active) = Some w.

(** * Vocabulary of the proofs *)

(** ** Properties of computations *)

(** [keeps f m]: running [m] leaves the observation [f] of the world as
    it was. *)
Definition keeps {A X} (f : World -> X) (m : M A) : Prop :=
  forall w a w', m w = Some (a, w') -> f w' = f w.

(** [total m]: [m] never throws. *)
Definition total {A} (m : M A) : Prop :=
  forall w, is_Some (m w).

(** [preserves P m]: [m] takes worlds in [P] to worlds in [P]. *)
Definition preserves {A} (P : World -> Prop) (m : M A) : Prop :=
  forall w a w', m w = Some (a, w') -> P w -> P w'.

(** The world after running [m] in [w] ([w] itself if [m] throws). *)
Definition ran {A} (m : M A) (w : World) : World := default w (exec m w).

(** The world after the events [es], from [w] ([w] itself if they cannot
    all happen). *)
Definition after (es : list Event) (w : World) : World :=
  default w (run es w).

(** ** Observations of the world *)

(** The component's props and state and React's phase: only [setState] and
    the event loop write them. *)
Definition core (w : World) : ModalPropsT * ModalStateT * Phase :=
  (props (this w), state (this w), phase (env w)).

(** [render] only creates refs: everything else stays. *)
Definition beside_refs (w : World) :=
  (props (this w), state (this w), animateOutTimer (this w),
   animateStartTimer (this w), lastFocus (this w),
   (BROWSER (env w), phase (env w), keyupListener (env w), timeouts (env w),
    frames (env w), nextTimeout (env w), nextFrame (env w), now (env w)),
   (body (env w), activeElement (env w), focusCalls (env w),
    scrollTop (env w), refCurrent (env w), onCloseCalls (env w))).

(** The memento, the focused element and the [focus()] calls so far. *)
Definition focusView (w : World) : option Element * option Element * list Element :=
  (lastFocus (this w), activeElement (env w), focusCalls (env w)).

Definition lastFocusOf (w : World) := lastFocus (this w).

Definition refCurrentOf (w : World) := refCurrent (env w).

Definition onCloseCallsOf (w : World) := onCloseCalls (env w).

(** The pending timers and the clock. *)
Definition timersView (w : World) :=
  (timeouts (env w), nextTimeout (env w), now (env w)).

(** The handles and the pending callbacks. *)
Definition schedView (w : World) :=
  (timeouts (env w), frames (env w), nextFrame (env w),
   animateOutTimer (this w), animateStartTimer (this w)).

(** Whatever [close] does not write: the component's props and state, the
    frame requests, the clock. *)
Definition besideClose (w : World) :=
  (core w, frames (env w), nextFrame (env w), animateStartTimer (this w),
   now (env w), BROWSER (env w), _refs (this w), refCurrent (env w)).

(** What [open] does not write. *)
Definition besideOpen (w : World) :=
  (core w, onCloseCalls (env w), now (env w), BROWSER (env w),
   refCurrent (env w)).

(** The [$ref] prop of the rendered Root element. *)
Definition rootRefProp (p : Portal) : option PropVal :=
  match portal_child p with
  | RElement _ ps _ => ps !! "$ref"
  | _ => None
  end.

(** ** What the handlers and events amount to *)

(** Does [componentDidUpdate] start a transition? *)
Definition transition (prevProps : ModalPropsT) (prevState : ModalStateT)
    (w : World) : bool :=
  negb (Bool.eqb (isOpen (props (this w))) (isOpen prevProps))
  || (isOpen (props (this w)) && mounted (state (this w))
      && negb (mounted prevState)).

(** The three conditions under which a key event closes the dialog. *)
Definition escapeCloses (event : KeyboardEvent) (w : World) : bool :=
  bool_decide (key event = "Escape")
  && negb (defaultPrevented event)
  && closeable (props (this w)).

(** The user dismissal that event [e] is in world [w], if it is one. *)
Definition dismissal (e : Event) (w : World) : option CloseSourceT :=
  match e with
  | EKeyup event =>
    if keyupListener (env w) && escapeCloses event w
    then Some CLOSE_SOURCE.escape else None
  | EClick s =>
    match clicked s w ≫= onClickOf with
    | Some BackdropClickHandler =>
      if closeable (props (this w)) then Some CLOSE_SOURCE.backdrop else None
    | Some CloseClickHandler => Some CLOSE_SOURCE.closeButton
    | _ => None
    end
  | _ => None
  end.

(** The call of [onClose] that a close with [source] makes in [w]: one, if
    there is a source and a callback; none otherwise. *)
Definition onCloseCall (w : World) (source : option CloseSourceT)
    : list (nat * CloseSourceT) :=
  match onClose (props (this w)), source with
  | Some f, Some s => [(f, s)]
  | _, _ => []
  end.

(** The [setState] a scheduled callback makes. *)
Definition callbackState (cb : Callback) : ModalStateT -> ModalStateT :=
  match cb with
  | CbAnimateOutComplete => set_isVisible false
  | CbAnimateStart => set_isVisible true
  end.

(** What [setState] makes of the state: nothing, once the instance is out
    of the tree. *)
Definition stateAfter (partial : ModalStateT -> ModalStateT) (w : World)
    : ModalStateT :=
  if bool_decide (phase (env w) = Attached)
  then partial (state (this w)) else state (this w).

(** Props, state and phase after event [e]. *)
Definition coreAfter (e : Event) (w : World) : ModalPropsT * ModalStateT * Phase :=
  match e with
  | EMount => (props (this w), set_mounted true (state (this w)), Attached)
  | ESetProps p => (p, state (this w), phase (env w))
  | EUnmount => (props (this w), state (this w), Detached)
  | ETimeout id =>
    match timeouts (env w) !! id with
    | Some (_, cb) => (props (this w), stateAfter (callbackState cb) w, phase (env w))
    | None => core w
    end
  | EFrame id =>
    match frames (env w) !! id with
    | Some cb => (props (this w), stateAfter (callbackState cb) w, phase (env w))
    | None => core w
    end
  | _ => core w
  end.

(** The events of the scheduler: time passing, timers and frames. *)
Definition is_sched (e : Event) : bool :=
  match e with
  | ETick _ | ETimeout _ | EFrame _ => true
  | _ => false
  end.

(** ** Invariants *)

(** [isVisible] only while [mounted]; an attached instance is [mounted]. *)
Definition visible_only_mounted (w : World) : Prop :=
  (isVisible (state (this w)) = true -> mounted (state (this w)) = true) /\
  (phase (env w) = Attached -> mounted (state (this w)) = true).

(** Every pending timer hides the dialog. *)
Definition timers_hide (w : World) : Prop :=
  forall id due cb, timeouts (env w) !! id = Some (due, cb) ->
    cb = CbAnimateOutComplete.

(** Every pending frame request is the one whose handle the instance
    holds, and every pending timer hides the dialog. *)
Definition sched_ok (w : World) : Prop :=
  (forall id cb, frames (env w) !! id = Some cb ->
     animateStartTimer (this w) = Some id) /\
  timers_hide w.

(** ** Concrete scenarios *)

Definition button : Element := {| el_id := 7; el_focus := true |}.
Definition pageBody : Element := {| el_id := 0; el_focus := true |}.
Definition dialogNode : Element := {| el_id := 3; el_focus := true |}.
Definition svgIcon : Element := {| el_id := 9; el_focus := false |}.

(** A host that passes only [onClose] and [children]. *)
Definition hostProps (cb : option nat) : HostPropsT := {|
  h_animate := None; h_autofocus := None; h_closeable := None;
  h_isOpen := None; h_mountNode := None; h_onClose := cb;
  h_overrides := None; h_role := None; h_size := None;
  h_children := ChildNode 0;
|}.

Definition demoProps : ModalPropsT := resolveProps (hostProps (Some 1)).

Definition setOpen (b : bool) (p : ModalPropsT) : ModalPropsT := {|
  animate := animate p; autofocus := autofocus p; closeable := closeable p;
  isOpen := b; mountNode := mountNode p; onClose := onClose p;
  overrides := overrides p; role := role p; size := size p;
  children := children p;
|}.

Definition setCloseable (b : bool) (p : ModalPropsT) : ModalPropsT := {|
  animate := animate p; autofocus := autofocus p; closeable := b;
  isOpen := isOpen p; mountNode := mountNode p; onClose := onClose p;
  overrides := overrides p; role := role p; size := size p;
  children := children p;
|}.

Definition setOverrides (o : gmap string OverrideT) (p : ModalPropsT)
    : ModalPropsT := {|
  animate := animate p; autofocus := autofocus p; closeable := closeable p;
  isOpen := isOpen p; mountNode := mountNode p; onClose := onClose p;
  overrides := o; role := role p; size := size p; children := children p;
|}.

Definition escapeKey : KeyboardEvent :=
  {| key := "Escape"; defaultPrevented := false |}.

(** A page whose focus is on [button], and the component just
    constructed. *)
Definition fresh : World := initial demoProps true (Some pageBody) (Some button).

(** The page from [fresh] after mounting; and the same page when the
    element that has the focus is one without a [focus] method. *)
Definition idle : World := after [EMount] fresh.

Definition idleOnIcon : World :=
  after [EMount] (initial demoProps true (Some pageBody) (Some svgIcon)).

(** Mounted, opened by the host, first frame painted. *)
Definition opened : World :=
  after [EMount; ESetProps (setOpen true demoProps); EFrame 1%positive] fresh.

(** [opened] with [closeable] switched off by the host. *)
Definition openedNotCloseable : World :=
  after [EMount; ESetProps (setOpen true (setCloseable false demoProps));
         EFrame 1%positive]
        (initial (setCloseable false demoProps) true (Some pageBody) (Some button)).

(** A host that overrides the Dialog slot's [$ref] with its own ref, which
    React has attached to the Dialog element; the dialog is mounted open. *)
Definition hostDialogRef : ElementRefT := HostRef 42.

Definition dialogRefOverride : gmap string OverrideT :=
  {[ "Dialog" := {| ov_component := None;
                    ov_props := {[ "$ref" := HRef hostDialogRef ]} |} ]}.

Definition overriddenProps : ModalPropsT :=
  setOpen true (setOverrides dialogRefOverride demoProps).

Definition overridden : World :=
  after [ERefAttached hostDialogRef (Some dialogNode); EMount]
        (initial overriddenProps true (Some pageBody) (Some button)).

(** The user presses Escape, the host answers by setting [isOpen] to
    false, and opens the dialog again 100 units later. *)
Definition dismissedAndReopened : list Event :=
  [ EMount;
    ESetProps (setOpen true demoProps);
    EFrame 1%positive;
    EKeyup escapeKey;
    ESetProps (setOpen false demoProps);
    ETick 100;
    ESetProps (setOpen true demoProps) ].

(** ** Slots of the rendered tree *)

Definition containerSlot (root : ReactNode) : option ReactNode :=
  match root with
  | RElement _ _ [_; c] => Some c
  | _ => None
  end.

(** The element rendered for the slot called [name]. *)
Definition slotNode (name : string) (root : ReactNode) : option ReactNode :=
  if bool_decide (name = "Root") then Some root
  else if bool_decide (name = "Backdrop") then backdropSlot root
  else if bool_decide (name = "DialogContainer") then containerSlot root
  else if bool_decide (name = "Dialog") then dialogSlot root
  else if bool_decide (name = "Close") then closeSlot root
  else None.

Definition propsOf (n : ReactNode) : PropsObj :=
  match n with
  | RElement _ ps _ => ps
  | _ => ∅
  end.


(** The styled element a slot falls back to. *)
Definition styledOf (name : string) : option Component :=
  if bool_decide (name = "Root") then Some StyledRoot
  else if bool_decide (name = "Backdrop") then Some StyledBackdrop
  else if bool_decide (name = "DialogContainer") then Some StyledDialogContainer
  else if bool_decide (name = "Dialog") then Some StyledDialog
  else if bool_decide (name = "Close") then Some StyledClose
  else None.

(** ** More observations and invariants *)

Definition listenerView (w : World) := (keyupListener (env w), BROWSER (env w)).

Definition refsView (w : World) := (_refs (this w), nextRef (env w)).

Definition focusNow (w : World) := (activeElement (env w), focusCalls (env w)).

Definition scrollTopOf (w : World) := scrollTop (env w).

(** The key listener is registered in a browser only. *)
Definition listener_in_browser (w : World) : Prop :=
  keyupListener (env w) = true -> BROWSER (env w) = true.

(** The key listener is registered only on an attached instance whose
    [isOpen] is true. *)
Definition listener_only_open (w : World) : Prop :=
  keyupListener (env w) = true ->
  phase (env w) = Attached /\ isOpen (props (this w)) = true.

(** The refs of the component's own were made by [createRef], one per
    component name. *)
Definition refs_ok (w : World) : Prop :=
  (forall c r, _refs (this w) !! c = Some r ->
     exists n, r = OwnRef n /\ n < nextRef (env w)) /\
  (forall c1 c2 r, _refs (this w) !! c1 = Some r ->
     _refs (this w) !! c2 = Some r -> c1 = c2).

(** The ref [getRef component] answers with in [w]: the Dialog override's,
    else the one kept under the component's name, else the next new one. *)
Definition refOf (component : string) (w : World) : ElementRefT :=
  match getOverrideProps (overrides (props (this w)) !! "Dialog") !! "$ref" with
  | Some (VRef r) => r
  | _ =>
    match _refs (this w) !! component with
    | Some r => r
    | None => OwnRef (nextRef (env w))
    end
  end.

(** Every pending frame request shows the dialog. *)
Definition frames_show (w : World) : Prop :=
  forall id cb, frames (env w) !! id = Some cb -> cb = CbAnimateStart.

(** Frame requests are pending on an attached instance only. *)
Definition frames_only_attached (w : World) : Prop :=
  phase (env w) <> Attached -> frames (env w) = ∅.

(** A modal in the tree holds a memento only while [isOpen]; one not yet
    in the tree holds none. *)
Definition memento_only_open (w : World) : Prop :=
  (phase (env w) = Constructed -> lastFocus (this w) = None) /\
  (phase (env w) = Attached -> isOpen (props (this w)) = false ->
   lastFocus (this w) = None).

(** Can event [e] happen in [w]?  A mount needs a constructed instance,
    an update or unmount an attached one, a click its slot on screen, a
    timer to be due and a frame to be requested. *)
Definition enabled (e : Event) (w : World) : bool :=
  match e with
  | EMount => bool_decide (phase (env w) = Constructed)
  | ESetProps _ | EUnmount => bool_decide (phase (env w) = Attached)
  | EClick s =>
    match clicked s w with
    | Some _ => true
    | None => false
    end
  | ETimeout id =>
    match timeouts (env w) !! id with
    | Some (due, _) => bool_decide (due ≤ now (env w))%nat
    | None => false
    end
  | EFrame id =>
    match frames (env w) !! id with
    | Some _ => true
    | None => false
    end
  | _ => true
  end.

(** Every element attached to a ref can take the focus. *)
Definition refs_focusable (w : World) : Prop :=
  forall r d, refCurrent (env w) !! r = Some d -> el_focus d = true.

(** No [$ref] comes with the Dialog override. *)
Definition no_override_ref (w : World) : Prop :=
  getOverrideProps (overrides (props (this w)) !! "Dialog") !! "$ref" = None.

(** ** More scenarios *)

(** A host element to mount into, and props that name it. *)
Definition drawer : Element := {| el_id := 5; el_focus := true |}.

Definition setMountNode (n : option Element) (p : ModalPropsT) : ModalPropsT := {|
  animate := animate p; autofocus := autofocus p; closeable := closeable p;
  isOpen := isOpen p; mountNode := n; onClose := onClose p;
  overrides := overrides p; role := role p; size := size p;
  children := children p;
|}.

Definition setAutofocus (b : bool) (p : ModalPropsT) : ModalPropsT := {|
  animate := animate p; autofocus := b; closeable := closeable p;
  isOpen := isOpen p; mountNode := mountNode p; onClose := onClose p;
  overrides := overrides p; role := role p; size := size p;
  children := children p;
|}.

(** The dialog was opened and painted once and closed again, so that its
    refs exist; React has attached them to the Root and Dialog elements. *)
Definition rootNode : Element := {| el_id := 2; el_focus := true |}.

Definition attached : World :=
  after [EMount; ESetProps (setOpen true demoProps); EFrame 1%positive;
         ESetProps (setOpen false demoProps); ETick 500; ETimeout 1%positive;
         ERefAttached (OwnRef 0) (Some rootNode);
         ERefAttached (OwnRef 1) (Some dialogNode)] fresh.

(** The same page when the element React attached to the Dialog ref has no
    [focus] method. *)
Definition attachedToIcon : World :=
  after [ERefAttached (OwnRef 1) (Some svgIcon)] attached.



(** A Close override that binds [onClick] to a handler of the host's;
    the dialog is mounted, opened and painted. *)
Definition closeOverride : gmap string OverrideT :=
  {[ "Close" := {| ov_component := None;
                   ov_props := {[ "onClick" := HHandler 7 ]} |} ]}.

Definition openedWithCloseOverride : World :=
  after [EMount; ESetProps (setOpen true (setOverrides closeOverride demoProps));
         EFrame 1%positive]
        (initial (setOverrides closeOverride demoProps) true
                 (Some pageBody) (Some button)).

(** The host opens the mounted dialog and closes it again before the
    next frame. *)
Definition openedAndClosed : list Event :=
  [ EMount;
    ESetProps (setOpen true demoProps);
    ESetProps (setOpen false demoProps) ].

(** ** Cancelling by handle *)

(** The pending callbacks [m] once the one that [handle] names, if any, is
    cancelled. *)
Definition cancelled {V} (handle : option positive) (m : gmap positive V)
    : gmap positive V :=
  match handle with
  | Some id => delete id m
  | None => m
  end.

(** Everything but the pending timers and frame requests. *)
Definition besideTimers (w : World) :=
  (this w, BROWSER (env w), phase (env w), keyupListener (env w),
   nextTimeout (env w), nextFrame (env w), now (env w),
   (body (env w), activeElement (env w), focusCalls (env w),
    scrollTop (env w), refCurrent (env w), nextRef (env w),
    onCloseCalls (env w))).

(** * Reasoning about computations in [M] *)

Lemma bind_Some {A B} (m : M A) (k : A -> M B) (w : World) b w' :
  bind m k w = Some (b, w') <->
  exists a w1, m w = Some (a, w1) /\ k a w1 = Some (b, w').
Proof.
  unfold bind. split.
  - destruct (m w) as [[a w1]|] eqn:E; [|discriminate].
    intros H. by exists a, w1.
  - intros (a & w1 & -> & H). exact H.
Qed.

Section Structural.
Context {X : Type} (f : World -> X).

Lemma keeps_ret {A} (a : A) : keeps f (ret a).
Proof. intros w a' w' [= _ ->]. reflexivity. Qed.

Lemma keeps_get {A} (g : World -> A) : keeps f (get g).
Proof. intros w a' w' [= _ ->]. reflexivity. Qed.

Lemma keeps_throw {A} : keeps f (@throw A).
Proof. intros w a w' [=]. Qed.

Lemma keeps_modify (g : World -> World) :
  (forall w, f (g w) = f w) -> keeps f (modify g).
Proof. intros Hg w a w' [= _ <-]. apply Hg. Qed.

Lemma keeps_bind {A B} (m : M A) (k : A -> M B) :
  keeps f m -> (forall a, keeps f (k a)) -> keeps f (bind m k).
Proof.
  intros Hm Hk w b w' (a & w1 & H1 & H2)%bind_Some.
  rewrite (Hk _ _ _ _ H2). eapply Hm, H1.
Qed.

Lemma keeps_when (b : bool) (m : M unit) : keeps f m -> keeps f (when b m).
Proof. destruct b; [done | intros _; apply keeps_ret]. Qed.
End Structural.

Lemma total_ret {A} (a : A) : total (ret a).
Proof. intros w. by eexists. Qed.

Lemma total_get {A} (g : World -> A) : total (get g).
Proof. intros w. by eexists. Qed.

Lemma total_modify (g : World -> World) : total (modify g).
Proof. intros w. by eexists. Qed.

Lemma total_bind {A B} (m : M A) (k : A -> M B) :
  total m -> (forall a, total (k a)) -> total (bind m k).
Proof.
  intros Hm Hk w. unfold bind.
  destruct (Hm w) as [[a w1] ->]. apply Hk.
Qed.

Lemma total_when (b : bool) (m : M unit) : total m -> total (when b m).
Proof. destruct b; [done | intros _; apply total_ret]. Qed.

Lemma total_unit (m : M unit) (w : World) :
  total m -> exists w', m w = Some (tt, w').
Proof. intros H. destruct (H w) as [[[] w'] E]. by exists w'. Qed.

Create HintDb keeps.
Create HintDb total.

#[local] Hint Resolve total_ret total_get total_modify : total.

Ltac keeps_step :=
  first
    [ solve [eauto with keeps]
    | lazymatch goal with
      | |- keeps _ (bind _ _) => apply keeps_bind; [| intros ?]
      | |- keeps _ (ret _) => apply keeps_ret
      | |- keeps _ (get _) => apply keeps_get
      | |- keeps _ throw => apply keeps_throw
      | |- keeps _ impossible => apply keeps_throw
      | |- keeps _ (modify _) => apply keeps_modify; intros ?; reflexivity
      | |- keeps _ (when _ _) => apply keeps_when
      | |- keeps _ (match ?x with _ => _ end) => destruct x
      end ].

Ltac total_step :=
  first
    [ solve [eauto with total]
    | lazymatch goal with
      | |- total (bind _ _) => apply total_bind; [| intros ?]
      | |- total (when _ _) => apply total_when
      | |- total (match ?x with _ => _ end) => destruct x
      end ].

Ltac total_auto := repeat total_step.

(** ** The primitives *)

Lemma total_setTimeout cb d : total (setTimeout cb d).
Proof. intros w. by eexists. Qed.

Lemma total_requestAnimationFrame cb : total (requestAnimationFrame cb).
Proof. intros w. by eexists. Qed.

Lemma total_createRef : total createRef.
Proof. intros w. by eexists. Qed.

Lemma total_clearTimeout id : total (clearTimeout id).
Proof. apply total_modify. Qed.

Lemma total_cancelAnimationFrame id : total (cancelAnimationFrame id).
Proof. apply total_modify. Qed.

Lemma total_callOnClose f s : total (callOnClose f s).
Proof. apply total_modify. Qed.

Lemma total_ownerDocument_activeElement n : total (ownerDocument_activeElement n).
Proof. apply total_get. Qed.

#[local] Hint Resolve total_setTimeout total_requestAnimationFrame
  total_createRef total_clearTimeout total_cancelAnimationFrame
  total_callOnClose total_ownerDocument_activeElement : total.

(** [focus] is the one primitive that can throw; guarded by the element's
    own capability it cannot. *)
Lemma total_guarded_focus e : total (when (el_focus e) (focus e)).
Proof.
  unfold focus. destruct (el_focus e); [apply total_modify | apply total_ret].
Qed.

#[local] Hint Resolve total_guarded_focus : total.

(** ** Methods that never throw *)

Lemma total_addDomEvents : total addDomEvents.
Proof. unfold addDomEvents. total_auto. Qed.

Lemma total_removeDomEvents : total removeDomEvents.
Proof. unfold removeDomEvents. total_auto. Qed.

Lemma total_clearTimers : total clearTimers.
Proof. unfold clearTimers. total_auto. Qed.

Lemma total_getRef c : total (getRef c).
Proof. unfold getRef. total_auto. Qed.

Lemma total_captureLastFocus : total captureLastFocus.
Proof. unfold captureLastFocus. total_auto. Qed.

Lemma total_restoreLastFocus : total restoreLastFocus.
Proof. unfold restoreLastFocus. total_auto. Qed.

#[local] Hint Resolve total_addDomEvents total_removeDomEvents
  total_clearTimers total_getRef total_captureLastFocus
  total_restoreLastFocus : total.

Lemma total_close source : total (close source).
Proof. unfold close. total_auto. Qed.

Lemma total_renderModal : total renderModal.
Proof. unfold renderModal. total_auto. Qed.

#[local] Hint Resolve total_close total_renderModal : total.

Lemma total_render : total render.
Proof. unfold render. total_auto. Qed.

Lemma total_onBackdropClick : total onBackdropClick.
Proof. unfold onBackdropClick. total_auto. Qed.

Lemma total_onCloseClick : total onCloseClick.
Proof. unfold onCloseClick. total_auto. Qed.

Lemma total_onDocumentKeyPress event : total (onDocumentKeyPress event).
Proof. unfold onDocumentKeyPress. total_auto. Qed.

Lemma total_componentWillUnmount : total componentWillUnmount.
Proof. unfold componentWillUnmount. total_auto. Qed.

#[local] Hint Resolve total_render total_onBackdropClick total_onCloseClick
  total_onDocumentKeyPress total_componentWillUnmount : total.

(** ** Which observations a method leaves alone *)

Section Primitives.
Context {X : Type} (f : World -> X).

Lemma keeps_setTimeout cb d :
  (forall w t n, f (on_env (with_timeouts t n) w) = f w) ->
  keeps f (setTimeout cb d).
Proof. intros H w a w' [= _ <-]. apply H. Qed.

Lemma keeps_clearTimeout id :
  (forall w t n, f (on_env (with_timeouts t n) w) = f w) ->
  keeps f (clearTimeout id).
Proof. intros H w a w' [= _ <-]. apply (H w). Qed.

Lemma keeps_requestAnimationFrame cb :
  (forall w t n, f (on_env (with_frames t n) w) = f w) ->
  keeps f (requestAnimationFrame cb).
Proof. intros H w a w' [= _ <-]. apply H. Qed.

Lemma keeps_cancelAnimationFrame id :
  (forall w t n, f (on_env (with_frames t n) w) = f w) ->
  keeps f (cancelAnimationFrame id).
Proof. intros H w a w' [= _ <-]. apply (H w). Qed.

Lemma keeps_focus e :
  (forall w a c, f (on_env (with_focus a c) w) = f w) ->
  keeps f (focus e).
Proof.
  intros H w a w'. unfold focus.
  destruct (el_focus e); [|intros [=]]. intros [= _ <-]. apply (H w).
Qed.

Lemma keeps_createRef :
  (forall w n, f (on_env (with_nextRef n) w) = f w) ->
  keeps f createRef.
Proof. intros H w a w' [= _ <-]. apply H. Qed.

Lemma keeps_callOnClose g s :
  (forall w l, f (on_env (with_onCloseCalls l) w) = f w) ->
  keeps f (callOnClose g s).
Proof. intros H w a w' [= _ <-]. apply (H w). Qed.

Lemma keeps_ownerDocument_activeElement n :
  keeps f (ownerDocument_activeElement n).
Proof. apply keeps_get. Qed.
End Primitives.

Ltac keeps_prim :=
  lazymatch goal with
  | |- keeps _ (setTimeout _ _) => apply keeps_setTimeout
  | |- keeps _ (clearTimeout _) => apply keeps_clearTimeout
  | |- keeps _ (requestAnimationFrame _) => apply keeps_requestAnimationFrame
  | |- keeps _ (cancelAnimationFrame _) => apply keeps_cancelAnimationFrame
  | |- keeps _ (focus _) => apply keeps_focus
  | |- keeps _ createRef => apply keeps_createRef
  | |- keeps _ (callOnClose _ _) => apply keeps_callOnClose
  | |- keeps _ (ownerDocument_activeElement _) =>
      apply keeps_ownerDocument_activeElement
  end; intros; reflexivity.

Ltac unfold_method :=
  progress unfold addDomEvents, removeDomEvents, clearTimers, getRef,
    captureLastFocus, restoreLastFocus, autoFocus, open, close,
    onDocumentKeyPress, onBackdropClick, onCloseClick, componentDidUpdate,
    renderModal, render, componentWillUnmount.

(** Proves [keeps f m] for a method [m] whose writes [f] does not read. *)
Ltac keeps_method := repeat first [keeps_step | keeps_prim | unfold_method].

Lemma keeps_core_render : keeps core render.
Proof. keeps_method. Qed.

Lemma keeps_core_open : keeps core open.
Proof. keeps_method. Qed.

Lemma keeps_core_close source : keeps core (close source).
Proof. keeps_method. Qed.

Lemma keeps_core_componentDidUpdate pp ps : keeps core (componentDidUpdate pp ps).
Proof. keeps_method. Qed.

Lemma keeps_core_componentWillUnmount : keeps core componentWillUnmount.
Proof. keeps_method. Qed.

Lemma keeps_core_onDocumentKeyPress event : keeps core (onDocumentKeyPress event).
Proof. keeps_method. Qed.

Lemma keeps_core_click n : keeps core (click n).
Proof. unfold click. destruct (onClickOf n) as [[]|]; keeps_method. Qed.

#[local] Hint Resolve keeps_core_render keeps_core_open keeps_core_close
  keeps_core_componentDidUpdate keeps_core_componentWillUnmount
  keeps_core_onDocumentKeyPress keeps_core_click : keeps.

Lemma keeps_beside_refs_getRef c : keeps beside_refs (getRef c).
Proof. keeps_method. Qed.

Lemma keeps_beside_refs_render : keeps beside_refs render.
Proof. keeps_method. Qed.

(** ** Rendering *)

Lemma renderModal_inv (w : World) t w' :
  renderModal w = Some (t, w') ->
  exists rootRef dialogRef w1,
    getRef "Root" w = Some (rootRef, w1) /\
    getRef "Dialog" w1 = Some (dialogRef, w') /\
    t = renderModal_jsx (props (this w)) (getSharedProps w) (getChildren w)
          rootRef dialogRef.
Proof.
  unfold renderModal. intros H.
  apply bind_Some in H as (p & w0 & [= <- <-] & H).
  apply bind_Some in H as (sh & w0 & [= <- <-] & H).
  apply bind_Some in H as (ch & w0 & [= <- <-] & H).
  apply bind_Some in H as (r1 & w1 & H1 & H).
  apply bind_Some in H as (r2 & w2 & H2 & [= <- <-]).
  by exists r1, r2, w1.
Qed.

Lemma backdropSlot_jsx p sh ch r1 r2 :
  is_Some (backdropSlot (renderModal_jsx p sh ch r1 r2)).
Proof. by eexists. Qed.

Lemma dialogSlot_jsx p sh ch r1 r2 :
  is_Some (dialogSlot (renderModal_jsx p sh ch r1 r2)).
Proof. by eexists. Qed.

(** C3: [render] returns [null] while [mounted] is false, and when both
    [isOpen] and [isVisible] are false; otherwise, given a mount node, it
    returns the portal of the [renderModal] subtree (Root with Backdrop and
    Dialog) into that node. *)
Theorem render_gate (w : World) :
  (mounted (state (this w)) = false -> render w = Some (None, w)) /\
  (isOpen (props (this w)) = false -> isVisible (state (this w)) = false ->
   render w = Some (None, w)) /\
  (forall n,
     mounted (state (this w)) = true ->
     isOpen (props (this w)) = true \/ isVisible (state (this w)) = true ->
     getMountNode w = Some n ->
     exists t w',
       renderModal w = Some (t, w') /\
       render w = Some (Some (createPortal t n), w') /\
       is_Some (backdropSlot t) /\ is_Some (dialogSlot t)).
Proof.
  split; [|split].
  - intros Hm. unfold render, bind, get. simpl. by rewrite Hm.
  - intros Ho Hv. unfold render, bind, get.
    destruct (mounted _); simpl; [|done]. by rewrite Ho, Hv.
  - intros n Hm Hov Hn.
    destruct (total_renderModal w) as [[t w'] Ht].
    exists t, w'. split; [exact Ht|].
    destruct (renderModal_inv _ _ _ Ht) as (r1 & r2 & w1 & _ & _ & ->).
    split; [|split; [apply backdropSlot_jsx | apply dialogSlot_jsx]].
    assert (negb (isOpen (props (this w))) && negb (isVisible (state (this w)))
            = false) as Hgate.
    { destruct Hov as [-> | ->]; [done | by rewrite andb_false_r]. }
    unfold render, bind, get. rewrite Hm. simpl.
    by rewrite Hgate, Hn, Ht.
Qed.

Lemma render_gate_witness :
  render fresh = Some (None, fresh) /\
  exists t w',
    renderModal opened = Some (t, w') /\
    render opened = Some (Some (createPortal t pageBody), w') /\
    is_Some (backdropSlot t) /\ is_Some (dialogSlot t).
Proof.
  destruct (render_gate fresh) as (H1 & _ & _).
  destruct (render_gate opened) as (_ & _ & H3).
  split.
  - apply H1. reflexivity.
  - apply H3; [reflexivity | left; reflexivity | reflexivity].
Defined.

(** ** Tactics for inverting a run of a method *)

(** Reduces projections of updated worlds, and nothing else. *)
Ltac wsimpl :=
  cbn [this env props state animateOutTimer animateStartTimer lastFocus _refs
       BROWSER phase keyupListener timeouts frames nextTimeout nextFrame now
       body activeElement focusCalls scrollTop refCurrent nextRef onCloseCalls
       on_this on_env with_state with_props with_animateOutTimer
       with_animateStartTimer with_lastFocus with_refs with_phase
       with_keyupListener with_timeouts with_frames with_now with_focus
       with_scrollTop with_refCurrent with_nextRef with_onCloseCalls
       isVisible mounted set_mounted set_isVisible fst snd] in *.

(** Splits [H : (m1 ;;; m2 ;;; ...) w = Some (b, w')] into one hypothesis
    per statement; the [get]s are resolved on the way. *)
Lemma setTimeout_eq cb d (w : World) :
  setTimeout cb d w =
  Some (nextTimeout (env w),
        on_env (with_timeouts
                  (<[nextTimeout (env w) := (now (env w) + d, cb)]> (timeouts (env w)))
                  (Pos.succ (nextTimeout (env w)))) w).
Proof. reflexivity. Qed.

Lemma requestAnimationFrame_eq cb (w : World) :
  requestAnimationFrame cb w =
  Some (nextFrame (env w),
        on_env (with_frames (<[nextFrame (env w) := cb]> (frames (env w)))
                            (Pos.succ (nextFrame (env w)))) w).
Proof. reflexivity. Qed.

Lemma createRef_eq (w : World) :
  createRef w =
  Some (OwnRef (nextRef (env w)), on_env (with_nextRef (S (nextRef (env w)))) w).
Proof. reflexivity. Qed.

Ltac minv_atom H :=
  try unfold callOnClose, clearTimeout, cancelAnimationFrame in H;
  lazymatch type of H with
  | setTimeout _ _ _ = Some _ =>
    rewrite setTimeout_eq in H; injection H as <- <-
  | requestAnimationFrame _ _ = Some _ =>
    rewrite requestAnimationFrame_eq in H; injection H as <- <-
  | createRef _ = Some _ =>
    rewrite createRef_eq in H; injection H as <- <-
  | get _ _ = Some _ => unfold get in H; injection H as <- <-
  | modify _ _ = Some (?a, _) => unfold modify in H; destruct a; injection H as <-
  | ret _ _ = Some _ =>
    unfold ret in H; first [injection H as <- <- | injection H as <-]
  | _ => idtac
  end.

Ltac minv H :=
  lazymatch type of H with
  | bind _ _ _ = Some _ =>
    let a := fresh "a" in
    let w1 := fresh "w" in
    let H1 := fresh "Hm" in
    apply bind_Some in H as (a & w1 & H1 & H);
    minv H1; minv H
  | _ => minv_atom H
  end.

(** From [H : m w = Some (a, w')], the equation [f w' = f w], when the
    writes of [m] are beside what [f] reads. *)
Ltac keep f H :=
  lazymatch type of H with
  | ?m ?w = Some (?a, ?w') =>
    let K := fresh "K" in
    assert (K : f w' = f w) by
      (refine ((_ : keeps f m) w a w' H); keeps_method);
    cbv beta in K
  end.

(** ** [componentDidUpdate] and [setState] *)

Lemma componentDidUpdate_eq pp ps (w : World) :
  componentDidUpdate pp ps w =
  if transition pp ps w
  then (if isOpen (props (this w)) then open w else close None w)
  else Some (tt, w).
Proof.
  unfold componentDidUpdate, transition, bind, get.
  destruct (negb _ || _); [|done]. by destruct (isOpen _).
Qed.

Lemma setState_inv partial (w w' : World) :
  setState partial w = Some (tt, w') ->
  (phase (env w) <> Attached /\ w' = w) \/
  (phase (env w) = Attached /\
   exists out w1,
     render (on_this (with_state (partial (state (this w)))) w) = Some (out, w1) /\
     componentDidUpdate (props (this w)) (state (this w)) w1 = Some (tt, w')).
Proof.
  unfold setState. intros H.
  apply bind_Some in H as (ph & w0 & [= <- <-] & H).
  case_bool_decide as Hph.
  - right. split; [done|]. minv H. eauto.
  - left. by injection H as <-.
Qed.

(** The core of the world after a [setState]. *)
Lemma setState_core partial (w w' : World) :
  setState partial w = Some (tt, w') ->
  core w' =
  (props (this w),
   if bool_decide (phase (env w) = Attached)
   then partial (state (this w)) else state (this w),
   phase (env w)).
Proof.
  intros [[Hph ->] | (Hph & out & w1 & Hr & Hu)]%setState_inv.
  - by rewrite bool_decide_eq_false_2.
  - rewrite bool_decide_eq_true_2 by done.
    keep core Hu. keep core Hr. by rewrite K, K0.
Qed.

(** ** [clearTimers] *)

Lemma clearTimers_spec (w w' : World) :
  clearTimers w = Some (tt, w') ->
  this w' = this w /\
  timeouts (env w') = match animateOutTimer (this w) with
                      | Some id => delete id (timeouts (env w))
                      | None => timeouts (env w)
                      end /\
  frames (env w') = match animateStartTimer (this w) with
                    | Some id => delete id (frames (env w))
                    | None => frames (env w)
                    end /\
  nextTimeout (env w') = nextTimeout (env w) /\
  nextFrame (env w') = nextFrame (env w).
Proof.
  unfold clearTimers, clearTimeout, cancelAnimationFrame, bind, get, modify, ret.
  destruct w as [[p s [o|] [f|] l r] h]; wsimpl; by intros [= <-].
Qed.

(** ** What [close] does *)

Lemma restoreLastFocus_spec (w w' : World) :
  restoreLastFocus w = Some (tt, w') ->
  focusView w' =
  match lastFocus (this w) with
  | Some e =>
    if el_focus e
    then (None, Some e, focusCalls (env w) ++ [e])
    else (None, activeElement (env w), focusCalls (env w))
  | None => focusView w
  end.
Proof.
  unfold restoreLastFocus, focus, focusView, when. intros H.
  apply bind_Some in H as (l & w0 & [= <- <-] & H).
  destruct (lastFocus (this w)) as [e|] eqn:E; [|minv H; by rewrite E].
  destruct (el_focus e); by minv H.
Qed.

Lemma close_calls source (w w' : World) :
  close source w = Some (tt, w') ->
  onCloseCalls (env w') =
  onCloseCalls (env w) ++
  match onClose (props (this w)), source with
  | Some f, Some s => [(f, s)]
  | _, _ => []
  end.
Proof.
  unfold close. intros H. minv H.
  keep onCloseCallsOf H. keep onCloseCallsOf Hm0.
  unfold onCloseCallsOf in *. wsimpl. rewrite K, K0.
  destruct (onClose (props (this w))) as [f|], source as [s|];
    minv Hm; wsimpl; by rewrite ?app_nil_r.
Qed.

Lemma close_timer source (w w' : World) :
  close source w = Some (tt, w') ->
  timeouts (env w') =
    <[nextTimeout (env w) := (now (env w) + 500, CbAnimateOutComplete)]>
      (timeouts (env w)) /\
  nextTimeout (env w') = Pos.succ (nextTimeout (env w)) /\
  animateOutTimer (this w') = Some (nextTimeout (env w)).
Proof.
  unfold close. intros H. minv H.
  keep (fun w => (timersView w, animateOutTimer (this w))) H.
  keep timersView Hm0.
  assert (timersView w0 = timersView w) as K1.
  { destruct (onClose (props (this w))), source; by minv Hm. }
  unfold timersView in *. wsimpl.
  rewrite K1 in K0. injection K0 as E1 E2 E3.
  injection K as -> -> _ ->. by rewrite E1, E2, E3.
Qed.

Lemma close_focus source (w w' : World) :
  close source w = Some (tt, w') ->
  focusView w' =
  match lastFocus (this w) with
  | Some e =>
    if el_focus e
    then (None, Some e, focusCalls (env w) ++ [e])
    else (None, activeElement (env w), focusCalls (env w))
  | None => focusView w
  end.
Proof.
  unfold close. intros H. minv H.
  apply restoreLastFocus_spec in H.
  keep focusView Hm0.
  assert (focusView w0 = focusView w) as K1.
  { destruct (onClose (props (this w))), source; by minv Hm. }
  unfold focusView in *. wsimpl.
  rewrite K1 in K. injection K as E1 E2 E3.
  by rewrite E1, E2, E3 in H.
Qed.

Lemma keeps_besideClose_close source : keeps besideClose (close source).
Proof. keeps_method. Qed.

(** [close] always changes the world: a new timer is pending. *)
Lemma close_changes source (w w' : World) :
  close source w = Some (tt, w') -> w' <> w.
Proof.
  intros (_ & Hn & _)%close_timer ->. lia.
Qed.

(** ** What [open] does *)

Lemma bind_run {A B} (m : M A) (k : A -> M B) (w : World) a w1 :
  m w = Some (a, w1) -> bind m k w = k a w1.
Proof. unfold bind. by intros ->. Qed.

(** The statements of [open], one by one. *)
Lemma open_inv (w w' : World) :
  open w = Some (tt, w') ->
  exists w1 w2 r w3 w4 w5 w6,
    captureLastFocus w = Some (tt, w1) /\
    autoFocus w1 = Some (tt, w2) /\
    getRef "Root" w2 = Some (r, w3) /\
    w4 = match refCurrent (env w3) !! r with
         | Some e =>
           on_env (fun h => with_scrollTop (<[el_id e := 0]> (scrollTop h)) h) w3
         | None => w3
         end /\
    clearTimers w4 = Some (tt, w5) /\
    addDomEvents w5 = Some (tt, w6) /\
    w' = on_this (with_animateStartTimer (Some (nextFrame (env w6))))
           (on_env (with_frames
                      (<[nextFrame (env w6) := CbAnimateStart]> (frames (env w6)))
                      (Pos.succ (nextFrame (env w6)))) w6).
Proof.
  unfold open. intros H.
  apply bind_Some in H as ([] & w1 & H1 & H).
  apply bind_Some in H as ([] & w2 & H2 & H).
  apply bind_Some in H as (r & w3 & H3 & H).
  apply bind_Some in H as (c & w0 & [= <- <-] & H).
  apply bind_Some in H as ([] & w4 & H4 & H).
  apply bind_Some in H as ([] & w5 & H5 & H).
  apply bind_Some in H as ([] & w6 & H6 & H).
  minv H.
  exists w1, w2, r, w3, w4, w5, w6. repeat split; try done.
  destruct (refCurrent (env w3) !! r); by minv H4.
Qed.

Lemma captureLastFocus_spec (w w' : World) :
  captureLastFocus w = Some (tt, w') ->
  w' = on_this (with_lastFocus (activeElement (env w))) w.
Proof.
  unfold captureLastFocus, ownerDocument_activeElement. intros H. by minv H.
Qed.

Lemma open_lastFocus (w w' : World) :
  open w = Some (tt, w') -> lastFocus (this w') = activeElement (env w).
Proof.
  intros (w1 & w2 & r & w3 & w4 & w5 & w6 & H1 & H2 & H3 & -> & H5 & H6 & ->)%open_inv.
  apply captureLastFocus_spec in H1 as ->.
  keep lastFocusOf H2. keep lastFocusOf H3. keep lastFocusOf H5.
  keep lastFocusOf H6.
  unfold lastFocusOf in *. wsimpl. rewrite K2, K1.
  destruct (refCurrent (env w3) !! r); wsimpl; by rewrite K0, K.
Qed.

Lemma open_sched (w w' : World) :
  open w = Some (tt, w') ->
  timeouts (env w') = match animateOutTimer (this w) with
                      | Some id => delete id (timeouts (env w))
                      | None => timeouts (env w)
                      end /\
  frames (env w') =
    <[nextFrame (env w) := CbAnimateStart]>
      (match animateStartTimer (this w) with
       | Some id => delete id (frames (env w))
       | None => frames (env w)
       end) /\
  animateOutTimer (this w') = animateOutTimer (this w) /\
  animateStartTimer (this w') = Some (nextFrame (env w)).
Proof.
  intros (w1 & w2 & r & w3 & w4 & w5 & w6 & H1 & H2 & H3 & E4 & H5 & H6 & ->)%open_inv.
  keep schedView H1. keep schedView H2. keep schedView H3. keep schedView H6.
  assert (schedView w4 = schedView w3) as K3.
  { subst w4. by destruct (refCurrent (env w3) !! r). }
  rewrite K1, K0, K in K3.
  apply clearTimers_spec in H5 as (Ht & Hto & Hfr & _ & K4).
  unfold schedView in *. wsimpl.
  injection K3 as E1 E2 E3 E5 E6. injection K2 as F1 F2 F3 F4 F5.
  rewrite F1, F2, F3, F4, Hto, Hfr, K4, Ht, E1, E2, E3, E5, E6. done.
Qed.

Lemma keeps_besideOpen_open : keeps besideOpen open.
Proof. keeps_method. Qed.

(** [autoFocus] throws only on a Dialog element without [focus]. *)
Lemma autoFocus_ok (w : World) :
  autofocus (props (this w)) = false \/
  (forall r d, refCurrent (env w) !! r = Some d -> el_focus d = true) ->
  exists w', autoFocus w = Some (tt, w').
Proof.
  intros Hok. unfold autoFocus.
  rewrite (bind_run _ _ w _ w eq_refl).
  destruct (autofocus (props (this w))) eqn:Ha; [|by eexists].
  destruct Hok as [[=] | Hok]. simpl.
  destruct (total_getRef "Dialog" w) as [[r w1] Hr].
  rewrite (bind_run _ _ _ _ _ Hr).
  rewrite (bind_run _ _ w1 _ w1 eq_refl).
  keep refCurrentOf Hr. unfold refCurrentOf in K.
  destruct (refCurrent (env w1) !! r) as [d|] eqn:Hd; [|by eexists].
  rewrite K in Hd. unfold focus. rewrite (Hok _ _ Hd). by eexists.
Qed.

Lemma open_ok (w : World) :
  autofocus (props (this w)) = false \/
  (forall r d, refCurrent (env w) !! r = Some d -> el_focus d = true) ->
  exists w', open w = Some (tt, w').
Proof.
  intros Hok. unfold open.
  destruct (total_unit captureLastFocus w total_captureLastFocus) as [w1 H1].
  rewrite (bind_run _ _ _ _ _ H1).
  apply captureLastFocus_spec in H1 as ->.
  destruct (autoFocus_ok (on_this (with_lastFocus (activeElement (env w))) w))
    as [w2 H2]; [exact Hok|].
  rewrite (bind_run _ _ _ _ _ H2).
  apply total_unit. total_auto.
Qed.

(** ** The Escape key *)

Lemma onDocumentKeyPress_eq event (w : World) :
  onDocumentKeyPress event w =
  if escapeCloses event w then close (Some CLOSE_SOURCE.escape) w
  else Some (tt, w).
Proof.
  unfold onDocumentKeyPress, escapeCloses, bind, get.
  destruct (decide (key event = "Escape")) as [E|E].
  - rewrite (bool_decide_eq_true_2 _ E).
    rewrite bool_decide_eq_false_2 by (by intros []).
    by destruct (defaultPrevented event), (closeable (props (this w))).
  - rewrite (bool_decide_eq_false_2 _ E).
    by rewrite bool_decide_eq_true_2.
Qed.

(** C5: the key handler closes with source [escape] exactly when the key
    is Escape, the event is not [defaultPrevented] and [closeable] is true
    (and then the world does change); in every other case the world is left
    exactly as it was. *)
Theorem escape_key_gate (event : KeyboardEvent) (w : World) :
  (escapeCloses event w = true ->
   onDocumentKeyPress event w = close (Some CLOSE_SOURCE.escape) w /\
   exists w', onDocumentKeyPress event w = Some (tt, w') /\ w' <> w) /\
  (escapeCloses event w = false ->
   onDocumentKeyPress event w = Some (tt, w)).
Proof.
  rewrite onDocumentKeyPress_eq. split; intros ->; [|done].
  split; [done|].
  destruct (total_unit _ w (total_close (Some CLOSE_SOURCE.escape))) as [w' H].
  exists w'. split; [done|]. by eapply close_changes.
Qed.

Lemma escape_key_gate_witness :
  (exists w', onDocumentKeyPress escapeKey opened = Some (tt, w') /\ w' <> opened) /\
  onDocumentKeyPress {| key := "Enter"; defaultPrevented := false |} opened
    = Some (tt, opened) /\
  onDocumentKeyPress {| key := "Escape"; defaultPrevented := true |} opened
    = Some (tt, opened) /\
  (let w := on_this (with_props (setCloseable false (props (this opened)))) opened in
   onDocumentKeyPress escapeKey w = Some (tt, w)).
Proof.
  split; [|split; [|split]].
  - apply (escape_key_gate escapeKey opened). reflexivity.
  - apply (escape_key_gate _ opened). reflexivity.
  - apply (escape_key_gate _ opened). reflexivity.
  - apply (escape_key_gate escapeKey). reflexivity.
Defined.

(** ** Calls of the host's [onClose] *)

Lemma keeps_calls_open : keeps onCloseCallsOf open.
Proof. keeps_method. Qed.

Lemma keeps_calls_close_None : keeps onCloseCallsOf (close None).
Proof.
  intros w [] w' H%close_calls. unfold onCloseCallsOf. rewrite H.
  destruct (onClose _); by rewrite app_nil_r.
Qed.

Lemma keeps_calls_render : keeps onCloseCallsOf render.
Proof. keeps_method. Qed.

Lemma keeps_calls_componentDidUpdate pp ps :
  keeps onCloseCallsOf (componentDidUpdate pp ps).
Proof.
  intros w [] w'. rewrite componentDidUpdate_eq.
  destruct (transition pp ps w); [|by intros [= <-]].
  destruct (isOpen _); [apply keeps_calls_open | apply keeps_calls_close_None].
Qed.

#[local] Hint Resolve keeps_calls_render keeps_calls_componentDidUpdate : keeps.

Lemma keeps_calls_setState partial : keeps onCloseCallsOf (setState partial).
Proof. unfold setState. keeps_method. Qed.

#[local] Hint Resolve keeps_calls_setState : keeps.

Lemma onCloseCall_None (w : World) : onCloseCall w None = [].
Proof. unfold onCloseCall. by destruct (onClose _). Qed.

Lemma step_calls (e : Event) (w w' : World) :
  step e w = Some (tt, w') ->
  onCloseCalls (env w') = onCloseCalls (env w) ++ onCloseCall w (dismissal e w).
Proof.
  intros H.
  assert (dismissal e w = None -> keeps onCloseCallsOf (step e) ->
          onCloseCalls (env w') = onCloseCalls (env w)
                                  ++ onCloseCall w (dismissal e w)) as Hkeep.
  { intros -> Hk. rewrite onCloseCall_None, app_nil_r. apply (Hk _ _ _ H). }
  destruct e as [|p| |event|s|d|id|id|a|r a]; simpl dismissal in *.
  - apply Hkeep; [done|]. unfold step, componentDidMount. keeps_method.
  - apply Hkeep; [done|]. unfold step. keeps_method.
  - apply Hkeep; [done|]. unfold step. keeps_method.
  - unfold step, bind, get in H. destruct (keyupListener (env w)); simpl.
    + rewrite onDocumentKeyPress_eq in H.
      destruct (escapeCloses event w); [by apply close_calls in H|].
      injection H as <-. by rewrite onCloseCall_None, app_nil_r.
    + injection H as <-. by rewrite onCloseCall_None, app_nil_r.
  - unfold step, bind, get in H.
    destruct (clicked s w) as [n|]; [|done]. simpl.
    unfold click in H. destruct (onClickOf n) as [[| |k]|].
    + unfold onBackdropClick, bind, get in H.
      destruct (closeable (props (this w))); simpl in H.
      * by apply close_calls in H.
      * injection H as <-. by rewrite onCloseCall_None, app_nil_r.
    + by apply close_calls in H.
    + injection H as <-. by rewrite onCloseCall_None, app_nil_r.
    + injection H as <-. by rewrite onCloseCall_None, app_nil_r.
  - apply Hkeep; [done|]. unfold step. keeps_method.
  - apply Hkeep; [done|].
    unfold step, runCallback, animateOutComplete. keeps_method.
  - apply Hkeep; [done|].
    unfold step, runCallback, animateOutComplete. keeps_method.
  - apply Hkeep; [done|]. unfold step. keeps_method.
  - apply Hkeep; [done|]. unfold step. keeps_method.
Qed.

Lemma step_SetProps_close p (w : World) :
  phase (env w) = Attached ->
  isOpen (props (this w)) = true -> isOpen p = false ->
  exists out w1,
    render (on_this (with_props p) w) = Some (out, w1) /\
    step (ESetProps p) w = close None w1.
Proof.
  intros Hph Ho Hp.
  destruct (total_render (on_this (with_props p) w)) as [[out w1] Hr].
  exists out, w1. split; [done|].
  unfold step. rewrite (bind_run _ _ w _ w eq_refl).
  rewrite bool_decide_eq_true_2 by done.
  rewrite (bind_run _ _ w _ w eq_refl), (bind_run _ _ w _ w eq_refl).
  rewrite (bind_run _ _ w _ _ eq_refl), (bind_run _ _ _ _ _ Hr).
  rewrite componentDidUpdate_eq. unfold transition.
  keep core Hr. unfold core in K. wsimpl. injection K as -> _ _.
  by rewrite Hp, Ho.
Qed.

(** C2: [close] calls the host's [onClose] exactly when it is given a
    source and the callback was supplied, then once and with that source;
    over the events of the environment, [onClose] is called once, with the
    source of the dismissal, by each user dismissal (Escape, backdrop click,
    close-button click) and by nothing else; when the host flips [isOpen]
    from true to false, [close] runs without a source and calls nothing. *)
Theorem onClose_exactly_on_dismissal :
  (forall source (w : World),
     exists w', close source w = Some (tt, w') /\
       onCloseCalls (env w') = onCloseCalls (env w) ++ onCloseCall w source) /\
  (forall e (w w' : World),
     step e w = Some (tt, w') ->
     onCloseCalls (env w') =
     onCloseCalls (env w) ++ onCloseCall w (dismissal e w)) /\
  (forall p (w : World),
     phase (env w) = Attached ->
     isOpen (props (this w)) = true -> isOpen p = false ->
     exists out w1 w',
       render (on_this (with_props p) w) = Some (out, w1) /\
       close None w1 = Some (tt, w') /\
       step (ESetProps p) w = Some (tt, w') /\
       onCloseCalls (env w') = onCloseCalls (env w)).
Proof.
  split; [|split].
  - intros source w.
    destruct (total_unit _ w (total_close source)) as [w' H].
    exists w'. split; [done|]. by apply close_calls.
  - apply step_calls.
  - intros p w Hph Ho Hp.
    destruct (step_SetProps_close p w Hph Ho Hp) as (out & w1 & Hr & Hs).
    destruct (total_unit _ w1 (total_close None)) as [w' H].
    exists out, w1, w'. repeat split; try done; [congruence|].
    rewrite <- Hs in H. apply step_calls in H. simpl in H.
    by rewrite onCloseCall_None, app_nil_r in H.
Qed.

Lemma onClose_exactly_on_dismissal_witness :
  (step (EKeyup escapeKey) opened = Some (tt, after [EKeyup escapeKey] opened) /\
   onCloseCalls (env (after [EKeyup escapeKey] opened)) = [(1, SrcEscape)]) /\
  (step (EClick BackdropSlot) opened
     = Some (tt, after [EClick BackdropSlot] opened) /\
   onCloseCalls (env (after [EClick BackdropSlot] opened)) = [(1, SrcBackdrop)]) /\
  (step (EClick CloseSlot) opened = Some (tt, after [EClick CloseSlot] opened) /\
   onCloseCalls (env (after [EClick CloseSlot] opened)) = [(1, SrcCloseButton)]) /\
  (exists out w1 w',
     render (on_this (with_props (setOpen false demoProps)) opened) = Some (out, w1) /\
     close None w1 = Some (tt, w') /\
     step (ESetProps (setOpen false demoProps)) opened = Some (tt, w') /\
     onCloseCalls (env w') = onCloseCalls (env opened)).
Proof.
  destruct onClose_exactly_on_dismissal as (_ & Hstep & Hflip).
  assert (forall e, step e opened = Some (tt, after [e] opened) ->
            step e opened = Some (tt, after [e] opened) /\
            onCloseCalls (env (after [e] opened)) =
            onCloseCalls (env opened) ++ onCloseCall opened (dismissal e opened))
    as Hat.
  { intros e H. split; [exact H | exact (Hstep e opened _ H)]. }
  split; [|split; [|split]].
  - apply Hat. vm_compute. reflexivity.
  - apply Hat. vm_compute. reflexivity.
  - apply Hat. vm_compute. reflexivity.
  - apply Hflip; reflexivity.
Defined.

(** ** The focus memento *)

(** C4: [open] stores the element that has the focus when it is called
    (and succeeds unless the Dialog element it auto-focuses has no [focus]
    method); every [close], with or without a source, succeeds, focuses the
    stored element, and clears the memento; a stored element without a
    [focus] method is skipped and the memento is cleared all the same; a
    second [close] in a row changes neither the focus nor the memento. *)
Theorem focus_memento :
  (forall w w' : World,
     open w = Some (tt, w') -> lastFocus (this w') = activeElement (env w)) /\
  (forall w : World,
     autofocus (props (this w)) = false \/
     (forall r d, refCurrent (env w) !! r = Some d -> el_focus d = true) ->
     exists w', open w = Some (tt, w')) /\
  (forall source (w : World),
     exists w', close source w = Some (tt, w') /\
       lastFocus (this w') = None /\
       match lastFocus (this w) with
       | Some e =>
         if el_focus e
         then activeElement (env w') = Some e /\
              focusCalls (env w') = focusCalls (env w) ++ [e]
         else activeElement (env w') = activeElement (env w) /\
              focusCalls (env w') = focusCalls (env w)
       | None => activeElement (env w') = activeElement (env w) /\
                 focusCalls (env w') = focusCalls (env w)
       end) /\
  (forall s1 s2 (w w1 w2 : World),
     close s1 w = Some (tt, w1) -> close s2 w1 = Some (tt, w2) ->
     lastFocus (this w2) = None /\
     activeElement (env w2) = activeElement (env w1) /\
     focusCalls (env w2) = focusCalls (env w1)) /\
  (forall source (w w1 w2 : World) e,
     activeElement (env w) = Some e -> el_focus e = true ->
     open w = Some (tt, w1) -> close source w1 = Some (tt, w2) ->
     activeElement (env w2) = Some e /\
     focusCalls (env w2) = focusCalls (env w1) ++ [e]).
Proof.
  assert (forall source (w w' : World),
            close source w = Some (tt, w') ->
            lastFocus (this w') = None /\
            match lastFocus (this w) with
            | Some e =>
              if el_focus e
              then activeElement (env w') = Some e /\
                   focusCalls (env w') = focusCalls (env w) ++ [e]
              else activeElement (env w') = activeElement (env w) /\
                   focusCalls (env w') = focusCalls (env w)
            | None => activeElement (env w') = activeElement (env w) /\
                      focusCalls (env w') = focusCalls (env w)
            end) as Hclose.
  { intros source w w' H%close_focus. unfold focusView in H.
    destruct (lastFocus (this w)) as [e|] eqn:El.
    - destruct (el_focus e); by injection H as -> -> ->.
    - by injection H as -> -> ->. }
  split; [exact open_lastFocus|].
  split; [exact open_ok|].
  split; [|split].
  - intros source w.
    destruct (total_unit _ w (total_close source)) as [w' H].
    exists w'. split; [done|]. exact (Hclose _ _ _ H).
  - intros s1 s2 w w1 w2 H1 H2.
    destruct (Hclose _ _ _ H1) as [E1 _].
    destruct (Hclose _ _ _ H2) as [E2 E3].
    by rewrite E1 in E3.
  - intros source w w1 w2 e Ha He Ho Hc.
    apply open_lastFocus in Ho. rewrite Ha in Ho.
    destruct (Hclose _ _ _ Hc) as [_ E]. by rewrite Ho, He in E.
Qed.

Lemma focus_memento_witness :
  lastFocus (this (ran open idle)) = Some button /\
  (exists w', open idle = Some (tt, w')) /\
  (activeElement (env (ran (close None) (ran open idle))) = Some button /\
   focusCalls (env (ran (close None) (ran open idle))) = [button]) /\
  (lastFocus (this (ran (close (Some SrcEscape)) (ran open idleOnIcon))) = None /\
   focusCalls (env (ran (close (Some SrcEscape)) (ran open idleOnIcon))) = []) /\
  focusCalls (env (ran (close None) (ran (close (Some SrcEscape)) (ran open idle))))
    = [button].
Proof.
  destruct focus_memento as (Hcap & Hok & Hclose & Htwice & Hround).
  split; [|split; [|split; [|split]]].
  - apply (Hcap idle). vm_compute. reflexivity.
  - apply Hok. right. intros r d.
    replace (refCurrent (env idle)) with (∅ : gmap ElementRefT Element)
      by reflexivity.
    by rewrite lookup_empty.
  - replace [button] with (focusCalls (env (ran open idle)) ++ [button])
      by reflexivity.
    apply (Hround None idle (ran open idle)); vm_compute; reflexivity.
  - destruct (Hclose (Some SrcEscape) (ran open idleOnIcon)) as (w' & H & Hl & Hf).
    vm_compute in H. injection H as <-. vm_compute. split; reflexivity.
  - destruct (Htwice (Some SrcEscape) None (ran open idle)
                (ran (close (Some SrcEscape)) (ran open idle))
                (ran (close None) (ran (close (Some SrcEscape)) (ran open idle))))
      as (_ & _ & ->); vm_compute; reflexivity.
Defined.

(** ** The Close slot and the click handlers *)

Lemma render_inv (w : World) p w' :
  render w = Some (Some p, w') ->
  mounted (state (this w)) = true /\
  (isOpen (props (this w)) = true \/ isVisible (state (this w)) = true) /\
  exists n t,
    getMountNode w = Some n /\ renderModal w = Some (t, w') /\
    p = createPortal t n.
Proof.
  unfold render. intros H.
  apply bind_Some in H as (s & w0 & [= <- <-] & H).
  destruct (mounted (state (this w))); cbn [negb] in H; [|done].
  apply bind_Some in H as (o & w0 & [= <- <-] & H).
  assert (isOpen (props (this w)) = true \/ isVisible (state (this w)) = true)
    as Hov.
  { destruct (isOpen (props (this w))), (isVisible (state (this w))); auto.
    discriminate H. }
  split; [done|]. split; [done|].
  destruct (negb _ && negb _); [done|].
  apply bind_Some in H as (n & w0 & [= <- <-] & H).
  destruct (getMountNode w) as [n|]; [|done].
  apply bind_Some in H as (t & w1 & Ht & [= <- <-]).
  by exists n, t.
Qed.

Lemma rendered_inv (w : World) p :
  rendered w = Some p ->
  exists r1 r2,
    portal_child p =
    renderModal_jsx (props (this w)) (getSharedProps w) (getChildren w) r1 r2.
Proof.
  unfold rendered. destruct (render w) as [[[q|] w']|] eqn:Hr; [|done..].
  intros [= <-].
  apply render_inv in Hr as (_ & _ & n & t & _ & Ht & ->).
  apply renderModal_inv in Ht as (r1 & r2 & w1 & _ & _ & ->).
  by exists r1, r2.
Qed.

Lemma getSharedProps_onClick (w : World) : getSharedProps w !! "onClick" = None.
Proof. reflexivity. Qed.

Lemma closeSlot_jsx p sh ch r1 r2 :
  closeSlot (renderModal_jsx p sh ch r1 r2) =
  if closeable p
  then Some (RElement (default StyledClose (getOverride (overrides p !! "Close")))
               (spread (spread (list_to_map
                                  [("aria-label", VStr "Close");
                                   ("onClick", VHandler CloseClickHandler)])
                               sh)
                       (getOverrideProps (overrides p !! "Close")))
               [RElement CloseIcon ∅ []])
  else None.
Proof. unfold closeSlot, dialogSlot, renderModal_jsx. by destruct (closeable p). Qed.

Lemma backdropSlot_jsx_eq p sh ch r1 r2 :
  backdropSlot (renderModal_jsx p sh ch r1 r2) =
  Some (RElement (default StyledBackdrop (getOverride (overrides p !! "Backdrop")))
          (spread (spread {["onClick" := VHandler BackdropClickHandler]} sh)
                  (getOverrideProps (overrides p !! "Backdrop")))
          []).
Proof. reflexivity. Qed.

Lemma clicked_rendered s (w : World) n :
  clicked s w = Some n ->
  exists p, rendered w = Some p /\
    match s with
    | BackdropSlot => backdropSlot (portal_child p)
    | CloseSlot => closeSlot (portal_child p)
    end = Some n.
Proof.
  unfold clicked. destruct (phase (env w)); try done.
  destruct (rendered w) as [p|]; [|done]. intros H. by exists p.
Qed.

(** An [onClick] that comes out of an override is a handler of the host's. *)
Lemma onClickOf_spread c (base : PropsObj) o ch h :
  onClickOf (RElement c (spread base (getOverrideProps o)) ch) = Some h ->
  (exists k, h = HostHandler k) \/
  (getOverrideProps o !! "onClick" = None /\
   base !! "onClick" = Some (VHandler h)).
Proof.
  unfold onClickOf, spread.
  destruct (getOverrideProps o !! "onClick") as [v|] eqn:Hv.
  - rewrite (lookup_union_Some_l _ _ _ _ Hv).
    unfold getOverrideProps in Hv. rewrite lookup_fmap in Hv.
    destruct (from_option ov_props ∅ o !! "onClick") as [[]|]; simpl in Hv;
      try done; injection Hv as <-; try done.
    intros [= <-]. left. by eexists.
  - rewrite (lookup_union_r _ _ _ Hv). intros H. right. split; [done|].
    destruct (base !! "onClick") as [[]|]; try done. by injection H as ->.
Qed.

(** C8: the Close slot is in the render output exactly when [closeable]
    is true; [onCloseClick] is [close] with source [closeButton], whatever
    [closeable] is, and it is the [onClick] of the rendered close button
    (unless the host's Close override binds [onClick] itself); with
    [closeable] false, [onBackdropClick] leaves the world as it is, and so
    does every click on the rendered backdrop. *)
Theorem close_slot_and_guards (w : World) :
  (forall p, rendered w = Some p ->
     (is_Some (closeSlot (portal_child p)) <-> closeable (props (this w)) = true)) /\
  onCloseClick w = close (Some CLOSE_SOURCE.closeButton) w /\
  (forall n,
     clicked CloseSlot w = Some n ->
     getOverrideProps (overrides (props (this w)) !! "Close") !! "onClick" = None ->
     onClickOf n = Some CloseClickHandler /\
     click n w = close (Some CLOSE_SOURCE.closeButton) w) /\
  (closeable (props (this w)) = false ->
   onBackdropClick w = Some (tt, w) /\
   forall n, clicked BackdropSlot w = Some n -> click n w = Some (tt, w)).
Proof.
  assert (closeable (props (this w)) = false ->
          onBackdropClick w = Some (tt, w)) as Hbd.
  { intros Hc. unfold onBackdropClick, bind, get. by rewrite Hc. }
  split; [|split; [done|split]].
  - intros p (r1 & r2 & ->)%rendered_inv. rewrite closeSlot_jsx.
    destruct (closeable _); split; first [done | by eexists | by intros []].
  - intros n (p & (r1 & r2 & ->)%rendered_inv & Hn)%clicked_rendered Hov.
    rewrite closeSlot_jsx in Hn.
    destruct (closeable _); [|done]. injection Hn as <-.
    lazymatch goal with
    | |- onClickOf ?x = _ /\ _ =>
      assert (onClickOf x = Some CloseClickHandler) as Hh
    end.
    { unfold onClickOf, spread.
      rewrite (lookup_union_r _ _ _ Hov).
      by rewrite (lookup_union_r _ _ _ (getSharedProps_onClick w)). }
    split; [exact Hh|]. unfold click. by rewrite Hh.
  - intros Hc. split; [by apply Hbd|].
    intros n (p & (r1 & r2 & ->)%rendered_inv & Hn)%clicked_rendered.
    rewrite backdropSlot_jsx_eq in Hn. injection Hn as <-.
    unfold click.
    lazymatch goal with
    | |- match onClickOf ?x with _ => _ end _ = _ =>
      destruct (onClickOf x) as [h|] eqn:Hh; [|done]
    end.
    apply onClickOf_spread in Hh as [[k ->] | [_ Hb]]; [done|].
    unfold spread in Hb.
    rewrite (lookup_union_r _ _ _ (getSharedProps_onClick w)) in Hb.
    rewrite lookup_singleton_eq in Hb. injection Hb as <-. by apply Hbd.
Qed.

Lemma close_slot_and_guards_witness :
  (exists p n, rendered opened = Some p /\ closeSlot (portal_child p) = Some n /\
     clicked CloseSlot opened = Some n /\
     click n opened = close (Some CLOSE_SOURCE.closeButton) opened) /\
  (exists p, rendered openedNotCloseable = Some p /\
     closeSlot (portal_child p) = None) /\
  (exists n, clicked BackdropSlot openedNotCloseable = Some n /\
     click n openedNotCloseable = Some (tt, openedNotCloseable)) /\
  onBackdropClick openedNotCloseable = Some (tt, openedNotCloseable).
Proof.
  destruct (close_slot_and_guards opened) as (Hslot & _ & Hclick & _).
  destruct (close_slot_and_guards openedNotCloseable) as (Hslot' & _ & _ & Hbd).
  destruct (rendered opened) as [p|] eqn:Hp; [|by vm_compute in Hp].
  destruct (clicked CloseSlot opened) as [n|] eqn:Hn; [|by vm_compute in Hn].
  destruct (rendered openedNotCloseable) as [p'|] eqn:Hp';
    [|by vm_compute in Hp'].
  destruct (clicked BackdropSlot openedNotCloseable) as [n'|] eqn:Hn';
    [|by vm_compute in Hn'].
  split; [|split; [|split]].
  - exists p, n. split; [done|].
    assert (closeSlot (portal_child p) = Some n) as Hcs.
    { unfold clicked in Hn. rewrite Hp in Hn. exact Hn. }
    split; [done|]. split; [done|].
    by apply (Hclick n).
  - exists p'. split; [done|].
    destruct (closeSlot (portal_child p')) eqn:Hcs; [|done].
    assert (is_Some (closeSlot (portal_child p'))) as Hs by (by rewrite Hcs).
    by apply (Hslot' p') in Hs.
  - exists n'. split; [done|]. by apply Hbd.
  - by apply Hbd.
Defined.

(** C8 as stated, at a host whose Close override binds [onClick]: the
    override's props are spread last, so the rendered close button carries
    the host's handler instead of [onCloseClick]; a click on it closes
    nothing, and the key listener stays. *)
Lemma close_click_with_override_onClick :
  exists n,
    closeable (props (this openedWithCloseOverride)) = true /\
    clicked CloseSlot openedWithCloseOverride = Some n /\
    propsOf n !! "onClick" = Some (VHandler (HostHandler 7)) /\
    click n openedWithCloseOverride = Some (tt, openedWithCloseOverride) /\
    click n openedWithCloseOverride
      <> close (Some CLOSE_SOURCE.closeButton) openedWithCloseOverride /\
    keyupListener (env openedWithCloseOverride) = true.
Proof.
  destruct (clicked CloseSlot openedWithCloseOverride) as [n|] eqn:Hn;
    [|by vm_compute in Hn].
  assert (propsOf n !! "onClick" = Some (VHandler (HostHandler 7))) as Hp.
  { vm_compute in Hn. injection Hn as <-. vm_compute. reflexivity. }
  assert (click n openedWithCloseOverride = Some (tt, openedWithCloseOverride))
    as Hc.
  { unfold click, onClickOf. destruct n as [| |c ps cs]; try done.
    cbn [propsOf] in Hp. by rewrite Hp. }
  exists n. split; [reflexivity|]. split; [reflexivity|]. split; [exact Hp|].
  split; [exact Hc|]. split; [|reflexivity].
  rewrite Hc. intros H. symmetry in H. by apply close_changes in H.
Qed.

(** ** Default props *)

(** C10: a prop the host leaves out takes its value from [defaultProps]:
    [closeable], [autofocus] and [animate] are true, [isOpen] is false,
    [role] is dialog, [size] is default and [overrides] is empty; so,
    unless the host passes [closeable = false], Escape and a backdrop click
    close the dialog and the close button is rendered. *)
Theorem default_props (h : HostPropsT) :
  (h_closeable h = None -> closeable (resolveProps h) = true) /\
  (h_autofocus h = None -> autofocus (resolveProps h) = true) /\
  (h_animate h = None -> animate (resolveProps h) = true) /\
  (h_isOpen h = None -> isOpen (resolveProps h) = false) /\
  (h_role h = None -> role (resolveProps h) = "dialog") /\
  (h_size h = None -> size (resolveProps h) = "default") /\
  (h_overrides h = None -> overrides (resolveProps h) = ∅) /\
  (closeable (resolveProps h) = false <-> h_closeable h = Some false) /\
  (h_closeable h <> Some false ->
   forall w : World,
     props (this w) = resolveProps h ->
     onDocumentKeyPress escapeKey w = close (Some CLOSE_SOURCE.escape) w /\
     onBackdropClick w = close (Some CLOSE_SOURCE.backdrop) w /\
     (forall p, rendered w = Some p -> is_Some (closeSlot (portal_child p)))).
Proof.
  assert (h_closeable h <> Some false -> closeable (resolveProps h) = true)
    as Hcl.
  { unfold resolveProps. simpl. by destruct (h_closeable h) as [[]|]. }
  do 7 (split; [intros E; unfold resolveProps; simpl; by rewrite E|]).
  split.
  - unfold resolveProps. simpl. by destruct (h_closeable h) as [[]|].
  - intros Hc w Hp. apply Hcl in Hc. rewrite <- Hp in Hc. repeat split.
    + rewrite onDocumentKeyPress_eq. unfold escapeCloses. rewrite Hc.
      by rewrite bool_decide_eq_true_2.
    + unfold onBackdropClick, bind, get. rewrite Hc. reflexivity.
    + intros p Hr. by apply (proj1 (close_slot_and_guards w) p Hr).
Qed.

Lemma default_props_witness :
  props (this opened) = setOpen true (resolveProps (hostProps (Some 1))) /\
  closeable demoProps = true /\ autofocus demoProps = true /\
  animate demoProps = true /\ isOpen demoProps = false /\
  role demoProps = "dialog" /\ size demoProps = "default" /\
  overrides demoProps = ∅ /\
  onDocumentKeyPress escapeKey idle = close (Some CLOSE_SOURCE.escape) idle /\
  onBackdropClick idle = close (Some CLOSE_SOURCE.backdrop) idle.
Proof.
  destruct (default_props (hostProps (Some 1)))
    as (Hc & Ha & Hn & Ho & Hr & Hs & Hov & _ & Hdis).
  split; [reflexivity|].
  split; [by apply Hc|]. split; [by apply Ha|]. split; [by apply Hn|].
  split; [by apply Ho|]. split; [by apply Hr|]. split; [by apply Hs|].
  split; [by apply Hov|].
  destruct (Hdis ltac:(done) idle) as (Hk & Hb & _); [reflexivity|].
  by split.
Defined.

(** ** Refs *)

(** With a [$ref] in the props of the Dialog override, [getRef] returns
    that ref for every component name. *)
Lemma getRef_override component (w : World) o r :
  overrides (props (this w)) !! "Dialog" = Some o ->
  ov_props o !! "$ref" = Some (HRef r) ->
  getRef component w = Some (r, w).
Proof.
  intros Ho Hr. unfold getRef, bind, get. rewrite Ho.
  unfold getOverrideProps. simpl. by rewrite lookup_fmap, Hr.
Qed.

(** Without one, it returns a ref made by [createRef]. *)
Lemma getRef_own component (w w' : World) r :
  getOverrideProps (overrides (props (this w)) !! "Dialog") !! "$ref" = None ->
  _refs (this w) !! component = None ->
  getRef component w = Some (r, w') ->
  r = OwnRef (nextRef (env w)) /\ _refs (this w') !! component = Some r.
Proof.
  intros Ho Hn. unfold getRef, bind, get. rewrite Ho, Hn.
  rewrite createRef_eq. unfold modify, ret. intros [= <- <-].
  split; [done|]. wsimpl. apply lookup_insert_eq.
Qed.

(** C9, at a Dialog override that brings its own [$ref]: [getRef] returns
    the host's ref for the Dialog and for the Root alike; no ref of the
    component's own is ever made, the rendered Root carries the host's ref,
    and the scroll reset of [open] lands on the element that ref points
    to. *)
Theorem getRef_Root_is_Dialog_override :
  getRef "Dialog" overridden = Some (hostDialogRef, overridden) /\
  getRef "Root" overridden = Some (hostDialogRef, overridden) /\
  _refs (this overridden) = ∅ /\
  (rendered overridden ≫= rootRefProp) = Some (VRef hostDialogRef) /\
  scrollTop (env overridden) !! el_id dialogNode = Some 0.
Proof. vm_compute. repeat split; reflexivity. Qed.

(** ** The hide timer *)

Lemma close_schedules_hide source (w w' : World) :
  close source w = Some (tt, w') ->
  exists id,
    animateOutTimer (this w') = Some id /\
    timeouts (env w') !! id = Some (now (env w) + 500, CbAnimateOutComplete).
Proof.
  intros (Ht & _ & Ha)%close_timer. exists (nextTimeout (env w)).
  split; [done|]. rewrite Ht. apply lookup_insert_eq.
Qed.

(** [open] cancels the timer whose handle is in [animateOutTimer]: the one
    the latest [close] made. *)
Lemma open_cancels_tracked (w w' : World) id :
  animateOutTimer (this w) = Some id ->
  open w = Some (tt, w') ->
  timeouts (env w') !! id = None.
Proof.
  intros Ha (Ht & _)%open_sched. rewrite Ht, Ha. apply lookup_delete_eq.
Qed.

(** With one [close] between two [open]s, the reopening leaves no hide
    timer behind: the timers pending after it were pending before the
    [close]. *)
Lemma reopen_cancels_latest_hide source (w w1 w2 : World) :
  close source w = Some (tt, w1) ->
  open w1 = Some (tt, w2) ->
  timeouts (env w2) = delete (nextTimeout (env w)) (timeouts (env w)).
Proof.
  intros (Ht & _ & Ha)%close_timer (Ht2 & _)%open_sched.
  by rewrite Ht2, Ha, Ht, delete_insert_eq.
Qed.

(** C6, at a dismissal followed by the host's own [isOpen = false]: both
    closes schedule a hide timer, the second overwrites the handle of the
    first, and the next [open] cancels only the second.  The first timer is
    still pending after the reopening, fires when its 500 units are over and
    hides the open dialog. *)
Theorem reopen_leaves_first_hide_timer :
  let w := after dismissedAndReopened fresh in
  let w' := after [EFrame 2%positive; ETick 400; ETimeout 1%positive] w in
  run dismissedAndReopened fresh = Some w /\
  isOpen (props (this w)) = true /\
  animateOutTimer (this w) = Some 2%positive /\
  timeouts (env w) !! 1%positive = Some (500, CbAnimateOutComplete) /\
  run [EFrame 2%positive; ETick 400; ETimeout 1%positive] w = Some w' /\
  isOpen (props (this w')) = true /\
  isVisible (state (this w')) = false /\
  timeouts (env w') = ∅ /\ frames (env w') = ∅.
Proof. vm_compute. repeat split; reflexivity. Qed.

(** * The state machine *)

Lemma run_app es1 es2 (w : World) :
  run (es1 ++ es2) w = run es1 w ≫= run es2.
Proof.
  revert w. induction es1 as [|e es1 IH]; intros w; simpl; [done|].
  destruct (step e w) as [[[] w1]|]; [apply IH | done].
Qed.

(** ** Props, state and phase after one event *)

Lemma runCallback_core cb (w w' : World) :
  runCallback cb w = Some (tt, w') ->
  core w' = (props (this w), stateAfter (callbackState cb) w, phase (env w)).
Proof.
  destruct cb; unfold runCallback, animateOutComplete; apply setState_core.
Qed.

Lemma step_core (e : Event) (w w' : World) :
  step e w = Some (tt, w') -> core w' = coreAfter e w.
Proof.
  destruct e as [|p| |event|s|d|id|id|a|r a]; unfold step, coreAfter; intros H.
  - apply bind_Some in H as (ph & w0 & [= <- <-] & H).
    case_bool_decide as Hph; [|done].
    apply bind_Some in H as ([] & w1 & [= <-] & H).
    apply bind_Some in H as (out & w2 & Hr & H).
    apply setState_core in H. keep core Hr.
    unfold core in *. wsimpl. injection K as Ep Es Eph.
    rewrite H, Ep, Es, Eph. by rewrite bool_decide_eq_true_2.
  - apply bind_Some in H as (ph & w0 & [= <- <-] & H).
    case_bool_decide as Hph; [|done].
    apply bind_Some in H as (pp & w0 & [= <- <-] & H).
    apply bind_Some in H as (ps & w0 & [= <- <-] & H).
    apply bind_Some in H as ([] & w1 & [= <-] & H).
    apply bind_Some in H as (out & w2 & Hr & H).
    keep core H. keep core Hr. by rewrite K, K0.
  - apply bind_Some in H as (ph & w0 & [= <- <-] & H).
    case_bool_decide as Hph; [|done].
    apply bind_Some in H as ([] & w1 & Hu & [= <-]).
    keep core Hu. unfold core in *. wsimpl. by injection K as -> -> _.
  - apply bind_Some in H as (l & w0 & [= <- <-] & H).
    destruct (keyupListener (env w)); [|by injection H as <-].
    by keep core H.
  - apply bind_Some in H as (n & w0 & [= <- <-] & H).
    destruct (clicked s w) as [n|]; [|done].
    exact (keeps_core_click n _ _ _ H).
  - by injection H as <-.
  - apply bind_Some in H as (t & w0 & [= <- <-] & H).
    destruct (timeouts (env w) !! id) as [[due cb]|]; [|done].
    apply bind_Some in H as (n & w0 & [= <- <-] & H).
    case_bool_decide; [|done].
    apply bind_Some in H as ([] & w1 & [= <-] & H).
    by apply runCallback_core in H.
  - apply bind_Some in H as (f & w0 & [= <- <-] & H).
    destruct (frames (env w) !! id) as [cb|]; [|done].
    apply bind_Some in H as ([] & w1 & [= <-] & H).
    by apply runCallback_core in H.
  - by injection H as <-.
  - by injection H as <-.
Qed.

(** ** [mounted] and [isVisible] *)

Lemma step_mounted (e : Event) (w w' : World) :
  step e w = Some (tt, w') ->
  mounted (state (this w)) = true -> mounted (state (this w')) = true.
Proof.
  intros H%step_core Hm. unfold core in H.
  destruct e; unfold coreAfter, core, stateAfter in H;
    repeat case_match; injection H as _ -> _; try done.
  all: lazymatch goal with cb : Callback |- _ => by destruct cb end.
Qed.

Lemma step_visible_only_mounted (e : Event) (w w' : World) :
  step e w = Some (tt, w') ->
  visible_only_mounted w -> visible_only_mounted w'.
Proof.
  intros H%step_core [Hv Ha]. unfold core in H. unfold visible_only_mounted.
  destruct e; unfold coreAfter, core, stateAfter in H;
    repeat case_match; injection H as _ -> ->; try done.
  all: try (lazymatch goal with cb : Callback |- _ => destruct cb end);
    simpl; auto.
  all: lazymatch goal with
       | H : bool_decide _ = true |- _ => apply bool_decide_eq_true_1 in H
       end; split; auto.
Qed.

Lemma initial_visible_only_mounted p browser bodyEl active :
  visible_only_mounted (initial p browser bodyEl active).
Proof. by split. Qed.

Lemma run_visible_only_mounted es (w w' : World) :
  run es w = Some w' -> visible_only_mounted w -> visible_only_mounted w'.
Proof.
  revert w. induction es as [|e es IH]; intros w; simpl.
  - by intros [= <-].
  - destruct (step e w) as [[[] w1]|] eqn:He; [|done].
    intros H Hw. eapply IH; [done|]. by eapply step_visible_only_mounted.
Qed.

Lemma run_mounted es (w w' : World) :
  run es w = Some w' ->
  mounted (state (this w)) = true -> mounted (state (this w')) = true.
Proof.
  revert w. induction es as [|e es IH]; intros w; simpl.
  - by intros [= <-].
  - destruct (step e w) as [[[] w1]|] eqn:He; [|done].
    intros H Hw. eapply IH; [done|]. by eapply step_mounted.
Qed.

(** C1: along every sequence of events from the initial world, [mounted]
    once true stays true, and [isVisible] is true only while [mounted]
    is. *)
Theorem mounted_never_reverts_visible_only_mounted
    p browser bodyEl active (es1 es2 : list Event) (w1 w2 : World) :
  run es1 (initial p browser bodyEl active) = Some w1 ->
  run es2 w1 = Some w2 ->
  (isVisible (state (this w1)) = true -> mounted (state (this w1)) = true) /\
  (mounted (state (this w1)) = true -> mounted (state (this w2)) = true).
Proof.
  intros H1 H2. split.
  - eapply run_visible_only_mounted; [done|].
    apply initial_visible_only_mounted.
  - by eapply run_mounted.
Qed.

Lemma mounted_never_reverts_visible_only_mounted_witness :
  run [EMount; ESetProps (setOpen true demoProps); EFrame 1%positive] fresh
    = Some opened /\
  run [ESetProps (setOpen false demoProps); ETick 500; ETimeout 1%positive;
       EUnmount] opened
    = Some (after [ESetProps (setOpen false demoProps); ETick 500;
                   ETimeout 1%positive; EUnmount] opened) /\
  (isVisible (state (this opened)) = true ->
   mounted (state (this opened)) = true) /\
  (mounted (state (this opened)) = true ->
   mounted (state (this (after [ESetProps (setOpen false demoProps); ETick 500;
                                ETimeout 1%positive; EUnmount] opened))) = true).
Proof.
  assert (run [EMount; ESetProps (setOpen true demoProps); EFrame 1%positive]
            fresh = Some opened) as H1 by (vm_compute; reflexivity).
  assert (run [ESetProps (setOpen false demoProps); ETick 500;
               ETimeout 1%positive; EUnmount] opened
          = Some (after [ESetProps (setOpen false demoProps); ETick 500;
                         ETimeout 1%positive; EUnmount] opened)) as H2
    by (vm_compute; reflexivity).
  split; [exact H1|]. split; [exact H2|].
  exact (mounted_never_reverts_visible_only_mounted _ _ _ _ _ _ _ _ H1 H2).
Defined.

(** ** Pending callbacks *)

Section Preserves.
Context (P : World -> Prop).

Lemma preserves_ret {A} (a : A) : preserves P (ret a).
Proof. by intros w a' w' [= _ <-]. Qed.

Lemma preserves_get {A} (g : World -> A) : preserves P (get g).
Proof. by intros w a' w' [= _ <-]. Qed.

Lemma preserves_throw {A} : preserves P (@throw A).
Proof. by intros w a w' [=]. Qed.

Lemma preserves_bind {A B} (m : M A) (k : A -> M B) :
  preserves P m -> (forall a, preserves P (k a)) -> preserves P (bind m k).
Proof.
  intros Hm Hk w b w' (a & w1 & H1 & H2)%bind_Some Hw.
  eapply Hk; [done|]. by eapply Hm.
Qed.

Lemma preserves_when (b : bool) (m : M unit) :
  preserves P m -> preserves P (when b m).
Proof. destruct b; [done | intros _; apply preserves_ret]. Qed.
End Preserves.

Lemma sched_ok_view (w w' : World) :
  schedView w' = schedView w -> sched_ok w -> sched_ok w'.
Proof.
  unfold schedView, sched_ok, timers_hide. intros [= Et Ef _ _ Es].
  by rewrite Et, Ef, Es.
Qed.

Lemma preserves_sched_ok_keeps {A} (m : M A) :
  keeps schedView m -> preserves sched_ok m.
Proof. intros Hk w a w' H. apply sched_ok_view. by eapply Hk. Qed.

Lemma preserves_sched_ok_open : preserves sched_ok open.
Proof.
  unfold sched_ok, timers_hide.
  intros w [] w' (Ht & Hf & Ho & Hs)%open_sched [Hfr Hto]. split.
  - intros id cb. rewrite Hf, Hs.
    destruct (decide (nextFrame (env w) = id)) as [->|Hne]; [done|].
    rewrite lookup_insert_ne by done.
    destruct (animateStartTimer (this w)) as [old|] eqn:Eo.
    + destruct (decide (old = id)) as [->|Hne']; [by rewrite lookup_delete_eq|].
      rewrite lookup_delete_ne by done. intros H%Hfr. congruence.
    + by intros H%Hfr.
  - intros id due cb. rewrite Ht.
    destruct (animateOutTimer (this w)) as [old|]; [|apply Hto].
    intros [_ H]%lookup_delete_Some. by eapply Hto.
Qed.

Lemma preserves_sched_ok_close source : preserves sched_ok (close source).
Proof.
  unfold sched_ok, timers_hide.
  intros w [] w' H [Hfr Hto].
  keep (fun w => (frames (env w), animateStartTimer (this w))) H.
  apply close_timer in H as (Ht & _ & _).
  injection K as Ef Es. split.
  - intros id cb. rewrite Ef, Es. apply Hfr.
  - intros id due cb. rewrite Ht.
    destruct (decide (nextTimeout (env w) = id)) as [->|Hne].
    + rewrite lookup_insert_eq. congruence.
    + rewrite lookup_insert_ne by done. apply Hto.
Qed.

Lemma preserves_sched_ok_clearTimers : preserves sched_ok clearTimers.
Proof.
  unfold sched_ok, timers_hide.
  intros w [] w' (Hthis & Ht & Hf & _)%clearTimers_spec [Hfr Hto]. split.
  - intros id cb. rewrite Hf, Hthis.
    destruct (animateStartTimer (this w)); [|apply Hfr].
    by intros [_ H%Hfr]%lookup_delete_Some.
  - intros id due cb. rewrite Ht.
    destruct (animateOutTimer (this w)); [|apply Hto].
    intros [_ H]%lookup_delete_Some. by eapply Hto.
Qed.

Lemma preserves_sched_ok_clearTimeout id : preserves sched_ok (clearTimeout id).
Proof.
  unfold sched_ok, timers_hide.
  intros w [] w' [= <-] [Hfr Hto]. split; [exact Hfr|]. wsimpl.
  intros i due cb [_ H]%lookup_delete_Some. by eapply Hto.
Qed.

Lemma preserves_sched_ok_cancelAnimationFrame id :
  preserves sched_ok (cancelAnimationFrame id).
Proof.
  unfold sched_ok, timers_hide.
  intros w [] w' [= <-] [Hfr Hto]. split; [|exact Hto]. wsimpl.
  intros i cb [_ H]%lookup_delete_Some. by eapply Hfr.
Qed.

Create HintDb preserves.

#[local] Hint Resolve preserves_sched_ok_open preserves_sched_ok_close
  preserves_sched_ok_clearTimers preserves_sched_ok_clearTimeout
  preserves_sched_ok_cancelAnimationFrame : preserves.

Ltac preserves_step :=
  first
    [ solve [eauto with preserves]
    | lazymatch goal with
      | |- preserves _ (bind _ _) => apply preserves_bind; [| intros ?]
      | |- preserves _ (ret _) => apply preserves_ret
      | |- preserves _ (get _) => apply preserves_get
      | |- preserves _ throw => apply preserves_throw
      | |- preserves _ impossible => apply preserves_throw
      | |- preserves _ (when _ _) => apply preserves_when
      | |- preserves _ (match ?x with _ => _ end) => destruct x
      end
    | solve [apply preserves_sched_ok_keeps; keeps_method] ].

Ltac preserves_method :=
  repeat first
    [ preserves_step
    | progress unfold setState, componentDidMount, componentWillUnmount,
        componentDidUpdate, animateOutComplete, runCallback, click,
        onDocumentKeyPress, onBackdropClick, onCloseClick ].

Lemma preserves_sched_ok_step e : preserves sched_ok (step e).
Proof. destruct e; unfold step; preserves_method. Qed.

Lemma initial_sched_ok p browser bodyEl active :
  sched_ok (initial p browser bodyEl active).
Proof. split; intros id; simpl; intros *; by rewrite lookup_empty. Qed.

Lemma run_sched_ok es (w w' : World) :
  run es w = Some w' -> sched_ok w -> sched_ok w'.
Proof.
  revert w. induction es as [|e es IH]; intros w; simpl.
  - by intros [= <-].
  - destruct (step e w) as [[[] w1]|] eqn:He; [|done].
    intros H Hw. eapply IH; [done|]. by eapply preserves_sched_ok_step.
Qed.

Lemma reachable_sched_ok (w : World) : reachable w -> sched_ok w.
Proof.
  intros (p & browser & bodyEl & active & es & H).
  eapply run_sched_ok; [done|]. apply initial_sched_ok.
Qed.

(** ** The scheduler on its own: ticks, timers and frames *)

Lemma run_cons e es (w : World) :
  run (e :: es) w = match step e w with
                    | Some (_, w') => run es w'
                    | None => None
                    end.
Proof. reflexivity. Qed.

(** A callback changes [isVisible] and nothing that is scheduled. *)
Lemma runCallback_sched cb (w w' : World) :
  runCallback cb w = Some (tt, w') -> schedView w' = schedView w.
Proof.
  assert (forall b, setState (set_isVisible b) w = Some (tt, w') ->
                    schedView w' = schedView w) as Hset.
  { intros b [[_ ->] | (Hph & out & w1 & Hr & Hu)]%setState_inv; [done|].
    keep schedView Hr. keep core Hr. rewrite componentDidUpdate_eq in Hu.
    assert (transition (props (this w)) (state (this w)) w1 = false) as Ht.
    { unfold transition. unfold core in K0. wsimpl.
      injection K0 as -> -> _. simpl.
      by destruct (isOpen (props (this w))), (mounted (state (this w))). }
    rewrite Ht in Hu. injection Hu as <-. exact K. }
  destruct cb; apply Hset.
Qed.

Lemma step_ETimeout_inv id (w w' : World) :
  step (ETimeout id) w = Some (tt, w') ->
  exists due cb,
    timeouts (env w) !! id = Some (due, cb) /\ due <= now (env w) /\
    timeouts (env w') = delete id (timeouts (env w)) /\
    frames (env w') = frames (env w).
Proof.
  unfold step. intros H.
  apply bind_Some in H as (t & w0 & [= <- <-] & H).
  destruct (timeouts (env w) !! id) as [[due cb]|]; [|done].
  apply bind_Some in H as (n & w0 & [= <- <-] & H).
  case_bool_decide as Hdue; [|done].
  apply bind_Some in H as ([] & w1 & [= <-] & H).
  apply runCallback_sched in H. unfold schedView in H. wsimpl.
  injection H as -> -> _ _ _. by exists due, cb.
Qed.

Lemma step_EFrame_inv id (w w' : World) :
  step (EFrame id) w = Some (tt, w') ->
  exists cb,
    frames (env w) !! id = Some cb /\
    frames (env w') = delete id (frames (env w)) /\
    timeouts (env w') = timeouts (env w).
Proof.
  unfold step. intros H.
  apply bind_Some in H as (f & w0 & [= <- <-] & H).
  destruct (frames (env w) !! id) as [cb|]; [|done].
  apply bind_Some in H as ([] & w1 & [= <-] & H).
  apply runCallback_sched in H. unfold schedView in H. wsimpl.
  injection H as -> -> _ _ _. by exists cb.
Qed.

(** What the scheduler's events keep: the phase, that every timer hides,
    and no new frame. *)
Lemma sched_step (e : Event) (w w' : World) :
  is_sched e = true -> step e w = Some (tt, w') ->
  phase (env w') = phase (env w) /\
  (timers_hide w -> timers_hide w') /\
  frames (env w') ⊆ frames (env w).
Proof.
  intros He H.
  assert (phase (env w') = phase (env w)) as Hph.
  { apply step_core in H. unfold core in H.
    destruct e; try done; unfold coreAfter, core in H;
      repeat case_match; by injection H as _ _ ->. }
  split; [done|].
  destruct e as [| | | | |d|id|id| |]; try done.
  - injection H as <-. by split.
  - apply step_ETimeout_inv in H as (due & cb & _ & _ & Ht & Hf).
    split; [|by rewrite Hf].
    intros Hto i d c. rewrite Ht. intros [_ Hi]%lookup_delete_Some.
    by eapply Hto.
  - apply step_EFrame_inv in H as (cb & _ & Hf & Ht).
    split; [|rewrite Hf; apply delete_subseteq].
    intros Hto i d c. rewrite Ht. apply Hto.
Qed.

Lemma sched_run es (w w' : World) :
  forallb is_sched es = true -> run es w = Some w' ->
  phase (env w') = phase (env w) /\
  (timers_hide w -> timers_hide w') /\
  frames (env w') ⊆ frames (env w).
Proof.
  revert w. induction es as [|e es IH]; intros w; simpl.
  - by intros _ [= <-].
  - intros [He Hes]%andb_true_iff.
    destruct (step e w) as [[[] w1]|] eqn:Hstep; [|done]. intros H.
    destruct (sched_step _ _ _ He Hstep) as (Hph & Hto & Hf).
    destruct (IH _ Hes H) as (Hph' & Hto' & Hf').
    split; [congruence|]. split; [auto|]. by etrans.
Qed.

Lemma frames_subseteq_empty (m : gmap positive Callback) : m ⊆ ∅ -> m = ∅.
Proof.
  intros Hm. apply map_empty. intros i.
  destruct (m !! i) as [cb|] eqn:E; [|done].
  eapply lookup_weaken in E; [|exact Hm]. by rewrite lookup_empty in E.
Qed.

(** Without a pending frame, a hidden dialog stays hidden. *)
Lemma sched_run_hidden es (w w' : World) :
  forallb is_sched es = true -> run es w = Some w' ->
  frames (env w) = ∅ -> timers_hide w ->
  isVisible (state (this w)) = false ->
  isVisible (state (this w')) = false.
Proof.
  revert w. induction es as [|e es IH]; intros w; simpl.
  - by intros _ [= <-].
  - intros [He Hes]%andb_true_iff.
    destruct (step e w) as [[[] w1]|] eqn:Hstep; [|done]. intros H Hf Hto Hv.
    destruct (sched_step _ _ _ He Hstep) as (_ & Hto1 & Hf1).
    apply (IH w1); [done | done | | by auto |].
    + rewrite Hf in Hf1. by apply frames_subseteq_empty.
    + pose proof (step_core _ _ _ Hstep) as Hc. unfold core in Hc.
      destruct e as [| | | | |d|id|id| |]; try done.
      * unfold coreAfter, core in Hc. injection Hc as _ -> _. exact Hv.
      * apply step_ETimeout_inv in Hstep as (due & cb & Hl & _).
        unfold coreAfter in Hc. rewrite Hl in Hc. injection Hc as _ -> _.
        rewrite (Hto _ _ _ Hl). unfold stateAfter.
        by case_bool_decide.
      * apply step_EFrame_inv in Hstep as (cb & Hl & _).
        by rewrite Hf, lookup_empty in Hl.
Qed.

(** The hide timer of an attached instance hides the dialog. *)
Lemma step_ETimeout_hides id (w w' : World) :
  step (ETimeout id) w = Some (tt, w') ->
  phase (env w) = Attached -> timers_hide w ->
  isVisible (state (this w')) = false.
Proof.
  intros H Hph Hto.
  pose proof (step_core _ _ _ H) as Hc. unfold core, coreAfter in Hc.
  apply step_ETimeout_inv in H as (due & cb & Hl & _).
  rewrite Hl in Hc. injection Hc as _ -> _.
  rewrite (Hto _ _ _ Hl). unfold stateAfter.
  by rewrite bool_decide_eq_true_2.
Qed.

(** X20: when the frame request whose handle the instance holds arrives
    before a timer fires, the dialog is hidden once that timer has fired,
    and stays hidden: in a reachable world of an attached instance, for
    every schedule of ticks, timers and frames in which the frame [f]
    comes before the timer [t]. *)
Theorem hidden_when_frame_first
    (w w3 : World) f t (es1 es2 es3 : list Event) :
  reachable w -> phase (env w) = Attached ->
  animateStartTimer (this w) = Some f ->
  forallb is_sched es1 = true -> forallb is_sched es2 = true ->
  forallb is_sched es3 = true ->
  run (es1 ++ EFrame f :: es2 ++ ETimeout t :: es3) w = Some w3 ->
  isVisible (state (this w3)) = false.
Proof.
  intros [Hfr Hto]%reachable_sched_ok Hph Hf Hs1 Hs2 Hs3 Hrun.
  (* split the run *)
  rewrite run_app in Hrun.
  destruct (run es1 w) as [wa|] eqn:Ha; [|done].
  change (run (EFrame f :: es2 ++ ETimeout t :: es3) wa = Some w3) in Hrun.
  rewrite run_cons in Hrun.
  destruct (step (EFrame f) wa) as [[[] wb]|] eqn:Hb; [|done].
  rewrite run_app in Hrun.
  destruct (run es2 wb) as [wc|] eqn:Hc; [|done].
  change (run (ETimeout t :: es3) wc = Some w3) in Hrun.
  rewrite run_cons in Hrun.
  destruct (step (ETimeout t) wc) as [[[] wd]|] eqn:Hd; [|done].
  (* up to the frame *)
  destruct (sched_run _ _ _ Hs1 Ha) as (Hpha & Htoa & Hfa).
  destruct (sched_step (EFrame f) _ _ eq_refl Hb) as (Hphb & Htob & _).
  apply step_EFrame_inv in Hb as (cb & _ & Hfb & _).
  assert (frames (env wb) = ∅) as Hnone.
  { apply map_empty. intros i. rewrite Hfb.
    destruct (decide (f = i)) as [->|Hne]; [apply lookup_delete_eq|].
    rewrite lookup_delete_ne by done.
    destruct (frames (env wa) !! i) as [c|] eqn:Ei; [|done].
    eapply lookup_weaken in Ei; [|exact Hfa].
    apply Hfr in Ei. congruence. }
  (* up to the timer *)
  destruct (sched_run _ _ _ Hs2 Hc) as (Hphc & Htoc & Hfc).
  rewrite Hnone in Hfc. apply frames_subseteq_empty in Hfc.
  destruct (sched_step (ETimeout t) _ _ eq_refl Hd) as (_ & Htod & Hfd).
  rewrite Hfc in Hfd. apply frames_subseteq_empty in Hfd.
  assert (timers_hide wc) as Hhc by auto.
  apply (sched_run_hidden es3 wd w3); [done | done | done | by auto |].
  apply (step_ETimeout_hides t wc); [done | congruence | done].
Qed.

(** The host opens the mounted dialog and closes it again before the
    next frame; then the frame arrives, and 500 units later the hide
    timer fires. *)
Lemma hidden_when_frame_first_witness :
  reachable (after openedAndClosed fresh) /\
  animateStartTimer (this (after openedAndClosed fresh)) = Some 1%positive /\
  run ([] ++ EFrame 1%positive :: [ETick 500] ++ ETimeout 1%positive :: [])
      (after openedAndClosed fresh)
    = Some (after [EFrame 1%positive; ETick 500; ETimeout 1%positive]
                  (after openedAndClosed fresh)) /\
  isVisible (state (this (after [EFrame 1%positive; ETick 500; ETimeout 1%positive]
                                (after openedAndClosed fresh)))) = false.
Proof.
  assert (reachable (after openedAndClosed fresh)) as Hreach.
  { exists demoProps, true, (Some pageBody), (Some button), openedAndClosed.
    vm_compute. reflexivity. }
  assert (run ([] ++ EFrame 1%positive :: [ETick 500] ++ ETimeout 1%positive :: [])
              (after openedAndClosed fresh)
          = Some (after [EFrame 1%positive; ETick 500; ETimeout 1%positive]
                        (after openedAndClosed fresh))) as Hrun
    by (vm_compute; reflexivity).
  split; [exact Hreach|]. split; [reflexivity|]. split; [exact Hrun|].
  apply (hidden_when_frame_first (after openedAndClosed fresh) _
           1%positive 1%positive [] [ETick 500] [] Hreach);
    [reflexivity | reflexivity | reflexivity | reflexivity | reflexivity
    | exact Hrun].
Defined.

(** [close] leaves the frame request of the [open] before it pending, and
    its handle in place. *)
Lemma close_keeps_frame_request source (w w' : World) :
  close source w = Some (tt, w') ->
  frames (env w') = frames (env w) /\
  animateStartTimer (this w') = animateStartTimer (this w).
Proof.
  intros H. keep (fun w => (frames (env w), animateStartTimer (this w))) H.
  by injection K as -> ->.
Qed.

(** With no timer and no frame request pending, the scheduler has nothing
    to run: the state stays as it is. *)
Lemma sched_run_nothing_pending es (w w' : World) :
  forallb is_sched es = true -> run es w = Some w' ->
  timeouts (env w) = ∅ -> frames (env w) = ∅ ->
  state (this w') = state (this w).
Proof.
  revert w. induction es as [|e es IH]; intros w; simpl.
  - by intros _ [= <-].
  - intros [He Hes]%andb_true_iff.
    destruct (step e w) as [[[] w1]|] eqn:Hstep; [|done]. intros H Ht Hf.
    destruct e as [| | | | |d|id|id| |]; try done.
    + injection Hstep as <-. by apply (IH _ Hes H).
    + apply step_ETimeout_inv in Hstep as (due & cb & Hl & _).
      by rewrite Ht, lookup_empty in Hl.
    + apply step_EFrame_inv in Hstep as (cb & Hl & _).
      by rewrite Hf, lookup_empty in Hl.
Qed.

(** C7, at a dialog that the host opens and closes again before the next
    frame: the close schedules the hide timer and leaves the open's frame
    request pending, with its handle still stored.  The frame arrives
    late: the hide timer fires first, then the frame callback sets
    [isVisible].  The dialog is closed and on screen, no callback is left
    pending, and it stays visible whatever time passes. *)
Theorem close_leaves_frame_request_pending :
  let w2 := after openedAndClosed fresh in
  let w3 := after [ETick 500; ETimeout 1%positive; EFrame 1%positive] w2 in
  run openedAndClosed fresh = Some w2 /\
  animateStartTimer (this w2) = Some 1%positive /\
  frames (env w2) !! 1%positive = Some CbAnimateStart /\
  animateOutTimer (this w2) = Some 1%positive /\
  timeouts (env w2) !! 1%positive = Some (500, CbAnimateOutComplete) /\
  run [ETick 500; ETimeout 1%positive; EFrame 1%positive] w2 = Some w3 /\
  isOpen (props (this w3)) = false /\
  isVisible (state (this w3)) = true /\
  is_Some (rendered w3) /\
  timeouts (env w3) = ∅ /\ frames (env w3) = ∅ /\
  forall es w4,
    forallb is_sched es = true -> run es w3 = Some w4 ->
    isVisible (state (this w4)) = true.
Proof.
  cbv zeta.
  assert (timeouts (env (after [ETick 500; ETimeout 1%positive; EFrame 1%positive]
                               (after openedAndClosed fresh))) = ∅) as Ht
    by (vm_compute; reflexivity).
  assert (frames (env (after [ETick 500; ETimeout 1%positive; EFrame 1%positive]
                             (after openedAndClosed fresh))) = ∅) as Hf
    by (vm_compute; reflexivity).
  do 8 (split; [vm_compute; reflexivity|]).
  split; [vm_compute; by eexists|].
  split; [exact Ht|]. split; [exact Hf|].
  intros es w4 Hs Hrun.
  rewrite (sched_run_nothing_pending _ _ _ Hs Hrun Ht Hf).
  vm_compute. reflexivity.
Qed.

(** * Further properties of the component *)

(** ** A generic invariant tactic *)

(** Proves [preserves P m] by the structure of [m]; [lem] turns a
    [keeps] goal on the view [P] reads into [preserves P]. *)
Ltac preserves_with lem :=
  repeat first
    [ solve [eauto with preserves]
    | lazymatch goal with
      | |- preserves _ (bind _ _) => apply preserves_bind; [| intros ?]
      | |- preserves _ (ret _) => apply preserves_ret
      | |- preserves _ (get _) => apply preserves_get
      | |- preserves _ throw => apply preserves_throw
      | |- preserves _ impossible => apply preserves_throw
      | |- preserves _ (when _ _) => apply preserves_when
      | |- preserves _ (match ?x with _ => _ end) => destruct x
      end
    | solve [apply lem; keeps_method]
    | progress unfold setState, componentDidMount, componentWillUnmount,
        componentDidUpdate, animateOutComplete, runCallback, click,
        onDocumentKeyPress, onBackdropClick, onCloseClick, open, close,
        render, renderModal, autoFocus, captureLastFocus, restoreLastFocus,
        clearTimers, addDomEvents, removeDomEvents ].

Lemma run_preserves (P : World -> Prop) :
  (forall e, preserves P (step e)) ->
  forall es (w w' : World), run es w = Some w' -> P w -> P w'.
Proof.
  intros Hstep es. induction es as [|e es IH]; intros w w'; simpl.
  - by intros [= <-].
  - destruct (step e w) as [[[] w1]|] eqn:He; [|done].
    intros H Hw. eapply IH; [done|]. by eapply Hstep.
Qed.

(** ** Callbacks *)

(** A scheduled callback writes [isVisible], creates refs at most, and
    never throws. *)
Lemma runCallback_beside_refs cb (w w' : World) :
  runCallback cb w = Some (tt, w') ->
  beside_refs w' =
  beside_refs (on_this (with_state (stateAfter (callbackState cb) w)) w).
Proof.
  assert (forall b, setState (set_isVisible b) w = Some (tt, w') ->
            beside_refs w' =
            beside_refs (on_this (with_state (stateAfter (set_isVisible b) w)) w))
    as Hset.
  { intros b [[Hph ->] | (Hph & out & w1 & Hr & Hu)]%setState_inv;
      unfold stateAfter.
    - rewrite bool_decide_eq_false_2 by done. by destruct w as [[] ?].
    - rewrite bool_decide_eq_true_2 by done.
      keep beside_refs Hr. keep core Hr. rewrite componentDidUpdate_eq in Hu.
      assert (transition (props (this w)) (state (this w)) w1 = false) as Ht.
      { unfold transition. unfold core in K0. wsimpl.
        injection K0 as -> -> _. simpl.
        by destruct (isOpen (props (this w))), (mounted (state (this w))). }
      rewrite Ht in Hu. injection Hu as <-. exact K. }
  destruct cb; apply Hset.
Qed.

Lemma runCallback_ok cb (w : World) : exists w', runCallback cb w = Some (tt, w').
Proof.
  assert (forall b, exists w', setState (set_isVisible b) w = Some (tt, w'))
    as Hset.
  { intros b. unfold setState. rewrite (bind_run _ _ w _ w eq_refl).
    case_bool_decide; [|by eexists].
    rewrite (bind_run _ _ w _ w eq_refl), (bind_run _ _ w _ w eq_refl).
    rewrite (bind_run _ _ w _ _ eq_refl).
    destruct (total_render
                (on_this (fun m => with_state (set_isVisible b (state m)) m) w))
      as [[out w1] Hr].
    rewrite (bind_run _ _ _ _ _ Hr). keep core Hr.
    rewrite componentDidUpdate_eq.
    assert (transition (props (this w)) (state (this w)) w1 = false) as ->.
    { unfold transition. unfold core in K. wsimpl.
      injection K as -> -> _. simpl.
      by destruct (isOpen (props (this w))), (mounted (state (this w))). }
    by eexists. }
  destruct cb; apply Hset.
Qed.

(** ** The key listener *)

Lemma addDomEvents_listener (w w' : World) :
  addDomEvents w = Some (tt, w') ->
  listenerView w' = (BROWSER (env w) || keyupListener (env w), BROWSER (env w)).
Proof.
  unfold addDomEvents, when, listenerView. intros H.
  apply bind_Some in H as (b & w0 & [= <- <-] & H).
  destruct (BROWSER (env w)) eqn:E; minv H; wsimpl; by rewrite ?E.
Qed.

Lemma removeDomEvents_listener (w w' : World) :
  removeDomEvents w = Some (tt, w') ->
  listenerView w' =
  (negb (BROWSER (env w)) && keyupListener (env w), BROWSER (env w)).
Proof.
  unfold removeDomEvents, when, listenerView. intros H.
  apply bind_Some in H as (b & w0 & [= <- <-] & H).
  destruct (BROWSER (env w)) eqn:E; minv H; wsimpl; by rewrite ?E.
Qed.

Lemma open_listener (w w' : World) :
  open w = Some (tt, w') ->
  listenerView w' = (BROWSER (env w) || keyupListener (env w), BROWSER (env w)).
Proof.
  intros (w1 & w2 & r & w3 & w4 & w5 & w6 & H1 & H2 & H3 & E4 & H5 & H6 & ->)%open_inv.
  keep listenerView H1. keep listenerView H2. keep listenerView H3.
  keep listenerView H5.
  assert (listenerView w4 = listenerView w3) as K3.
  { subst w4. by destruct (refCurrent (env w3) !! r). }
  apply addDomEvents_listener in H6.
  rewrite K3, K1, K0, K in K2. unfold listenerView in *. wsimpl.
  injection K2 as E1 E2. by rewrite H6, E1, E2.
Qed.

Lemma close_listener source (w w' : World) :
  close source w = Some (tt, w') ->
  listenerView w' =
  (negb (BROWSER (env w)) && keyupListener (env w), BROWSER (env w)).
Proof.
  unfold close. intros H.
  apply bind_Some in H as (f & w0 & [= <- <-] & H).
  apply bind_Some in H as ([] & w1 & H1 & H).
  apply bind_Some in H as ([] & w2 & H2 & H).
  apply bind_Some in H as (id & w3 & H3 & H).
  apply bind_Some in H as ([] & w4 & [= <-] & H).
  keep listenerView H. keep listenerView H3.
  assert (listenerView w1 = listenerView w) as K1.
  { destruct (onClose (props (this w))), source; by minv H1. }
  apply removeDomEvents_listener in H2.
  unfold listenerView in *. wsimpl. injection K1 as E1 E2.
  rewrite K, K0, H2. by rewrite E1, E2.
Qed.

Lemma listener_in_browser_view (w w' : World) l :
  listenerView w' = (l && keyupListener (env w), BROWSER (env w)) \/
  listenerView w' = (BROWSER (env w) || keyupListener (env w), BROWSER (env w)) \/
  listenerView w' = listenerView w ->
  listener_in_browser w -> listener_in_browser w'.
Proof.
  unfold listener_in_browser, listenerView.
  intros [[= -> ->] | [[= -> ->] | [= -> ->]]] Hw; [| |done].
  - intros [_ H]%andb_true_iff. auto.
  - intros [H|H]%orb_true_iff; auto.
Qed.

Lemma preserves_listener_in_browser_keeps {A} (m : M A) :
  keeps listenerView m -> preserves listener_in_browser m.
Proof.
  intros Hk w a w' H. apply (listener_in_browser_view w w' true).
  right. right. by eapply Hk.
Qed.

Lemma preserves_listener_in_browser_open : preserves listener_in_browser open.
Proof.
  intros w [] w' H%open_listener.
  apply (listener_in_browser_view w w' true). auto.
Qed.

Lemma preserves_listener_in_browser_close source :
  preserves listener_in_browser (close source).
Proof.
  intros w [] w' H%close_listener.
  by apply (listener_in_browser_view w w' (negb (BROWSER (env w)))); left.
Qed.

Lemma preserves_listener_in_browser_removeDomEvents :
  preserves listener_in_browser removeDomEvents.
Proof.
  intros w [] w' H%removeDomEvents_listener.
  by apply (listener_in_browser_view w w' (negb (BROWSER (env w)))); left.
Qed.

#[local] Hint Resolve preserves_listener_in_browser_open
  preserves_listener_in_browser_close
  preserves_listener_in_browser_removeDomEvents : preserves.

Lemma preserves_listener_in_browser_step e :
  preserves listener_in_browser (step e).
Proof.
  destruct e; unfold step;
    preserves_with @preserves_listener_in_browser_keeps.
Qed.

Lemma reachable_listener_in_browser (w : World) :
  reachable w -> listener_in_browser w.
Proof.
  intros (p & browser & bodyEl & active & es & H).
  eapply (run_preserves _ preserves_listener_in_browser_step); [done|].
  by intros [=].
Qed.

Lemma listener_in_browser_same (w w' : World) :
  listenerView w' = listenerView w ->
  listener_in_browser w -> listener_in_browser w'.
Proof. intros H. apply (listener_in_browser_view w w' true). auto. Qed.

Lemma componentDidUpdate_listener_only_open pp ps (w w' : World) :
  componentDidUpdate pp ps w = Some (tt, w') ->
  phase (env w) = Attached ->
  (keyupListener (env w) = true -> isOpen pp = true) ->
  listener_in_browser w ->
  listener_only_open w'.
Proof.
  rewrite componentDidUpdate_eq. intros H Hph Hpp Hb.
  unfold listener_only_open.
  destruct (transition pp ps w) eqn:Ht.
  - destruct (isOpen (props (this w))) eqn:Ho.
    + keep core H. unfold core in K. injection K as -> _ ->. by intros _.
    + apply close_listener in H. unfold listenerView in H.
      injection H as -> _. intros [Hn Hl]%andb_true_iff.
      apply Hb in Hl. by rewrite Hl in Hn.
  - injection H as <-. intros Hl. split; [done|].
    unfold transition in Ht. apply orb_false_iff in Ht as [Ht _].
    apply negb_false_iff, eqb_prop in Ht. rewrite Ht. auto.
Qed.

Lemma preserves_listener_only_open_step e (w w' : World) :
  step e w = Some (tt, w') ->
  listener_in_browser w -> listener_only_open w -> listener_only_open w'.
Proof.
  intros H Hb Ho.
  assert (forall (w1 : World),
            listenerView w1 = listenerView w -> core w1 = core w ->
            listener_only_open w1) as Hsame.
  { unfold listenerView, core, listener_only_open.
    intros w1 [= -> _] [= -> _ ->]. exact Ho. }
  assert (forall source (w1 : World),
            close source w = Some (tt, w1) -> listener_only_open w1) as Hclose.
  { intros source w1 Hc%close_listener. unfold listenerView in Hc.
    injection Hc as Hl _. unfold listener_only_open. rewrite Hl.
    intros [Hn Hk]%andb_true_iff. apply Hb in Hk. by rewrite Hk in Hn. }
  destruct e as [|p| |event|s|d|id|id|a|r a]; unfold step in H.
  - (* mount *)
    apply bind_Some in H as (ph & w0 & [= <- <-] & H).
    case_bool_decide as Hph; [|done].
    apply bind_Some in H as ([] & w1 & [= <-] & H).
    apply bind_Some in H as (out & w2 & Hr & H).
    keep listenerView Hr. keep core Hr.
    assert (keyupListener (env w) = false) as Hoff.
    { destruct (keyupListener (env w)) eqn:E; [|done].
      destruct (Ho E) as [Hat _]. congruence. }
    apply setState_inv in H as [[_ ->] | (_ & out' & w3 & Hr' & Hu)].
    + unfold listener_only_open. unfold listenerView in K.
      injection K as -> _. wsimpl. by rewrite Hoff.
    + keep listenerView Hr'. keep core Hr'.
      eapply componentDidUpdate_listener_only_open; [exact Hu | | |].
      * unfold core in *. wsimpl. by injection K2 as _ _ ->; injection K0 as _ _ ->.
      * unfold listenerView in *. wsimpl. injection K1 as -> _.
        injection K as -> _. by rewrite Hoff.
      * apply (listener_in_browser_same w); [|done].
        unfold listenerView in *. wsimpl. by rewrite K1, K.
  - (* props *)
    apply bind_Some in H as (ph & w0 & [= <- <-] & H).
    case_bool_decide as Hph; [|done].
    apply bind_Some in H as (pp & w0 & [= <- <-] & H).
    apply bind_Some in H as (ps & w0 & [= <- <-] & H).
    apply bind_Some in H as ([] & w1 & [= <-] & H).
    apply bind_Some in H as (out & w2 & Hr & Hu).
    keep listenerView Hr. keep core Hr.
    eapply componentDidUpdate_listener_only_open; [exact Hu | | |].
    + unfold core in K0. wsimpl. by injection K0 as _ _ ->.
    + unfold listenerView in K. wsimpl. injection K as -> _.
      intros Hl. by apply Ho.
    + by apply (listener_in_browser_same w).
  - (* unmount *)
    apply bind_Some in H as (ph & w0 & [= <- <-] & H).
    case_bool_decide as Hph; [|done].
    apply bind_Some in H as ([] & w1 & Hu & [= <-]).
    unfold componentWillUnmount in Hu.
    apply bind_Some in Hu as ([] & w2 & Hrm & Hct).
    keep listenerView Hct. apply removeDomEvents_listener in Hrm.
    unfold listener_only_open, listenerView in *. wsimpl.
    rewrite Hrm in K. injection K as -> _.
    intros [Hn Hk]%andb_true_iff. apply Hb in Hk. by rewrite Hk in Hn.
  - (* keyup *)
    apply bind_Some in H as (l & w0 & [= <- <-] & H).
    destruct (keyupListener (env w)); [|by injection H as <-].
    rewrite onDocumentKeyPress_eq in H.
    destruct (escapeCloses event w); [by eapply Hclose | by injection H as <-].
  - (* click *)
    apply bind_Some in H as (n & w0 & [= <- <-] & H).
    destruct (clicked s w) as [n|]; [|done].
    unfold click in H. destruct (onClickOf n) as [[| |k]|].
    + unfold onBackdropClick, bind, get in H.
      destruct (negb (closeable (props (this w))));
        [by injection H as <- | by eapply Hclose].
    + by eapply Hclose.
    + by injection H as <-.
    + by injection H as <-.
  - injection H as <-. by apply Hsame.
  - (* timer *)
    apply bind_Some in H as (t & w0 & [= <- <-] & H).
    destruct (timeouts (env w) !! id) as [[due cb]|]; [|done].
    apply bind_Some in H as (n & w0 & [= <- <-] & H).
    case_bool_decide; [|done].
    apply bind_Some in H as ([] & w1 & [= <-] & H).
    pose proof (runCallback_core _ _ _ H) as Hc.
    apply runCallback_beside_refs in H.
    unfold listener_only_open in *. unfold core in Hc. wsimpl.
    injection Hc as -> _ ->. unfold beside_refs in H. wsimpl.
    injection H as _ _ _ _ _ _ _ -> _ _ _ _ _ _ _ _ _ _ _. exact Ho.
  - (* frame *)
    apply bind_Some in H as (f & w0 & [= <- <-] & H).
    destruct (frames (env w) !! id) as [cb|]; [|done].
    apply bind_Some in H as ([] & w1 & [= <-] & H).
    pose proof (runCallback_core _ _ _ H) as Hc.
    apply runCallback_beside_refs in H.
    unfold listener_only_open in *. unfold core in Hc. wsimpl.
    injection Hc as -> _ ->. unfold beside_refs in H. wsimpl.
    injection H as _ _ _ _ _ _ _ -> _ _ _ _ _ _ _ _ _ _ _. exact Ho.
  - injection H as <-. by apply Hsame.
  - injection H as <-. by apply Hsame.
Qed.

Lemma run_listener es (w w' : World) :
  run es w = Some w' ->
  listener_in_browser w -> listener_only_open w ->
  listener_in_browser w' /\ listener_only_open w'.
Proof.
  revert w. induction es as [|e es IH]; intros w; simpl.
  - by intros [= <-].
  - destruct (step e w) as [[[] w1]|] eqn:He; [|done].
    intros H Hb Ho. apply (IH w1 H).
    + by eapply preserves_listener_in_browser_step.
    + by eapply preserves_listener_only_open_step.
Qed.

(** X1: in every reachable world the document's key listener is
    registered only in a browser, on an attached instance, while [isOpen]
    is true. *)
Theorem listener_only_while_open (w : World) :
  reachable w ->
  keyupListener (env w) = true ->
  BROWSER (env w) = true /\ phase (env w) = Attached /\
  isOpen (props (this w)) = true.
Proof.
  intros (p & browser & bodyEl & active & es & H) Hl.
  destruct (run_listener _ _ _ H) as [Hb Ho]; [by intros [=]..|].
  split; [by apply Hb | by apply Ho].
Qed.

Lemma listener_only_while_open_witness :
  reachable opened /\ keyupListener (env opened) = true /\
  BROWSER (env opened) = true /\ phase (env opened) = Attached /\
  isOpen (props (this opened)) = true.
Proof.
  assert (reachable opened) as Hr.
  { exists demoProps, true, (Some pageBody), (Some button),
      [EMount; ESetProps (setOpen true demoProps); EFrame 1%positive].
    vm_compute. reflexivity. }
  split; [exact Hr|]. split; [reflexivity|].
  apply (listener_only_while_open opened Hr). reflexivity.
Defined.

(** X2: after any [close], in a reachable world, a key event on the
    document reaches no handler: a second Escape neither calls [onClose]
    again nor schedules another timer. *)
Theorem keyup_after_close_is_ignored source event (w w1 : World) :
  reachable w ->
  close source w = Some (tt, w1) ->
  keyupListener (env w1) = false /\
  step (EKeyup event) w1 = Some (tt, w1).
Proof.
  intros Hb%reachable_listener_in_browser H%close_listener.
  unfold listenerView in H. injection H as Hl _.
  assert (keyupListener (env w1) = false) as Hoff.
  { rewrite Hl. destruct (keyupListener (env w)) eqn:E; [|by rewrite andb_false_r].
    by rewrite (Hb E). }
  split; [done|]. unfold step, bind, get. by rewrite Hoff.
Qed.

Lemma keyup_after_close_is_ignored_witness :
  reachable opened /\
  close (Some SrcEscape) opened = Some (tt, ran (close (Some SrcEscape)) opened) /\
  keyupListener (env (ran (close (Some SrcEscape)) opened)) = false /\
  step (EKeyup escapeKey) (ran (close (Some SrcEscape)) opened)
    = Some (tt, ran (close (Some SrcEscape)) opened).
Proof.
  assert (reachable opened) as Hr.
  { exists demoProps, true, (Some pageBody), (Some button),
      [EMount; ESetProps (setOpen true demoProps); EFrame 1%positive].
    vm_compute. reflexivity. }
  assert (close (Some SrcEscape) opened
          = Some (tt, ran (close (Some SrcEscape)) opened)) as Hc
    by (vm_compute; reflexivity).
  split; [exact Hr|]. split; [exact Hc|].
  exact (keyup_after_close_is_ignored (Some SrcEscape) escapeKey _ _ Hr Hc).
Defined.

(** ** Unmounting *)

(** X3: unmounting an attached instance, in a reachable world, succeeds,
    removes the key listener, leaves no frame request pending and cancels
    the hide timer whose handle is stored; the component's state is not
    touched. *)
Theorem unmount_cleans_up (w : World) :
  reachable w -> phase (env w) = Attached ->
  exists w',
    step EUnmount w = Some (tt, w') /\
    phase (env w') = Detached /\
    keyupListener (env w') = false /\
    frames (env w') = ∅ /\
    (forall id, animateOutTimer (this w) = Some id ->
       timeouts (env w') !! id = None) /\
    state (this w') = state (this w).
Proof.
  intros Hreach Hph.
  pose proof (reachable_listener_in_browser _ Hreach) as Hb.
  apply reachable_sched_ok in Hreach as [Hfr _].
  destruct (total_unit _ w total_componentWillUnmount) as [w1 Hu].
  exists (on_env (with_phase Detached) w1). split.
  { unfold step. rewrite (bind_run _ _ w _ w eq_refl).
    rewrite bool_decide_eq_true_2 by done.
    by rewrite (bind_run _ _ _ _ _ Hu). }
  wsimpl. split; [done|].
  keep core Hu. unfold componentWillUnmount in Hu.
  apply bind_Some in Hu as ([] & w2 & Hrm & Hct).
  keep listenerView Hct. keep schedView Hrm.
  apply removeDomEvents_listener in Hrm.
  apply clearTimers_spec in Hct as (_ & Hto & Hf & _).
  unfold listenerView, schedView, core in *.
  injection K0 as Hl _. injection Hrm as Hl2 _.
  injection K1 as Et Ef _ Eo Es. injection K as _ Est _.
  split; [|split; [|split]].
  - rewrite Hl, Hl2. destruct (keyupListener (env w)) eqn:E;
      [|by rewrite andb_false_r]. by rewrite (Hb E).
  - apply map_empty. intros i. rewrite Hf, Es, Ef.
    destruct (frames (env w) !! i) as [cb|] eqn:Ei.
    + rewrite (Hfr _ _ Ei). apply lookup_delete_eq.
    + destruct (animateStartTimer (this w)); [|done].
      by rewrite lookup_delete_None; right.
  - intros id Hid. rewrite Hto, Eo, Hid. apply lookup_delete_eq.
  - done.
Qed.

Lemma unmount_cleans_up_witness :
  reachable (after dismissedAndReopened fresh) /\
  exists w',
    step EUnmount (after dismissedAndReopened fresh) = Some (tt, w') /\
    phase (env w') = Detached /\
    keyupListener (env w') = false /\
    frames (env w') = ∅ /\
    (forall id, animateOutTimer (this (after dismissedAndReopened fresh)) = Some id ->
       timeouts (env w') !! id = None) /\
    state (this w') = state (this (after dismissedAndReopened fresh)).
Proof.
  assert (reachable (after dismissedAndReopened fresh)) as Hr.
  { exists demoProps, true, (Some pageBody), (Some button), dismissedAndReopened.
    vm_compute. reflexivity. }
  split; [exact Hr|].
  apply (unmount_cleans_up _ Hr). reflexivity.
Defined.

(** ** Refs of the component's own *)

Lemma getRef_fst component (w w' : World) r :
  getRef component w = Some (r, w') -> r = refOf component w.
Proof.
  unfold getRef, refOf. intros H.
  apply bind_Some in H as (o & w0 & [= <- <-] & H).
  destruct (getOverrideProps _ !! "$ref") as [[]|]; try by minv H.
  all: apply bind_Some in H as (c & w0 & [= <- <-] & H).
  all: destruct (_refs (this w) !! component); by minv H.
Qed.

Lemma getRef_cached component (w : World) r :
  no_override_ref w -> _refs (this w) !! component = Some r ->
  getRef component w = Some (r, w).
Proof.
  unfold no_override_ref. intros Ho Hr. unfold getRef, bind, get.
  by rewrite Ho, Hr.
Qed.

(** Without an override ref, [getRef] leaves the ref it answers with
    under the component's name, and the refs under other names alone. *)
Lemma getRef_own_inv component (w w' : World) r :
  no_override_ref w ->
  getRef component w = Some (r, w') ->
  _refs (this w') !! component = Some r /\
  (forall c, c <> component -> _refs (this w') !! c = _refs (this w) !! c) /\
  props (this w') = props (this w).
Proof.
  unfold no_override_ref. intros Ho H.
  keep (fun w => props (this w)) H.
  unfold getRef in H.
  apply bind_Some in H as (o & w0 & [= <- <-] & H).
  rewrite Ho in H.
  apply bind_Some in H as (c & w0 & [= <- <-] & H).
  destruct (_refs (this w) !! component) as [r0|] eqn:E.
  - minv H. by rewrite E.
  - minv H. wsimpl. split; [apply lookup_insert_eq|]. split; [|done].
    intros c Hc. by apply lookup_insert_ne.
Qed.

Lemma refs_ok_createRef component (w : World) :
  refs_ok w ->
  refs_ok
    (on_this
       (fun m => with_refs (<[component:=OwnRef (nextRef (env w))]> (_refs m)) m)
       (on_env (with_nextRef (S (nextRef (env w)))) w)).
Proof.
  intros [Hown Hinj]. split; wsimpl.
  - intros c1 r1. destruct (decide (c1 = component)) as [->|Hne].
    + rewrite lookup_insert_eq. intros [= <-]. eexists. split; [done|lia].
    + rewrite lookup_insert_ne by done. intros (n & -> & Hn)%Hown.
      eexists. split; [done|lia].
  - intros c1 c2 r1.
    destruct (decide (c1 = component)) as [->|Hn1],
             (decide (c2 = component)) as [->|Hn2];
      rewrite ?lookup_insert_eq, ?lookup_insert_ne by done; try done.
    + intros [= <-] (n & [= Hr] & Hn)%Hown. lia.
    + intros (n & -> & Hn)%Hown [= Hr]. lia.
    + apply Hinj.
Qed.

Lemma preserves_refs_ok_getRef component : preserves refs_ok (getRef component).
Proof.
  intros w r w' H Hok. unfold getRef in H.
  apply bind_Some in H as (o & w0 & [= <- <-] & H).
  assert (forall r0, ret r0 w = Some (r, w') -> refs_ok w') as Hret.
  { by intros r0 [= _ <-]. }
  destruct (getOverrideProps _ !! "$ref") as [[]|]; try by eapply Hret.
  all: apply bind_Some in H as (c & w0 & [= <- <-] & H).
  all: destruct (_refs (this w) !! component) as [r0|] eqn:E;
    [by eapply Hret|].
  all: minv H; by apply refs_ok_createRef.
Qed.

#[local] Hint Resolve preserves_refs_ok_getRef : preserves.

Lemma preserves_refs_ok_keeps {A} (m : M A) :
  keeps refsView m -> preserves refs_ok m.
Proof.
  intros Hk w a w' H%Hk. unfold refsView, refs_ok in *.
  injection H as -> ->. done.
Qed.

Lemma preserves_refs_ok_step e : preserves refs_ok (step e).
Proof. destruct e; unfold step; preserves_with @preserves_refs_ok_keeps. Qed.

Lemma reachable_refs_ok (w : World) : reachable w -> refs_ok w.
Proof.
  intros (p & browser & bodyEl & active & es & H).
  eapply (run_preserves _ preserves_refs_ok_step); [done|].
  split; intros *; simpl; by rewrite lookup_empty.
Qed.

(** X4: when the Dialog override brings no [$ref], in every reachable
    world the Root and the Dialog get refs made by [createRef] that differ
    from each other, and asking again returns the same refs and changes
    nothing. *)
Theorem own_refs_distinct_and_stable (w w1 w2 : World) r1 r2 :
  reachable w -> no_override_ref w ->
  getRef "Root" w = Some (r1, w1) ->
  getRef "Dialog" w1 = Some (r2, w2) ->
  r1 <> r2 /\
  (exists n1 n2, r1 = OwnRef n1 /\ r2 = OwnRef n2) /\
  getRef "Root" w2 = Some (r1, w2) /\
  getRef "Dialog" w2 = Some (r2, w2).
Proof.
  intros Hok%reachable_refs_ok Ho H1 H2.
  pose proof (preserves_refs_ok_getRef _ _ _ _ H1 Hok) as Hok1.
  pose proof (preserves_refs_ok_getRef _ _ _ _ H2 Hok1) as [Hown Hinj].
  destruct (getRef_own_inv _ _ _ _ Ho H1) as (Hr1 & _ & Hp1).
  assert (no_override_ref w1) as Ho1 by (unfold no_override_ref; by rewrite Hp1).
  destruct (getRef_own_inv _ _ _ _ Ho1 H2) as (Hr2 & Hoth & Hp2).
  assert (no_override_ref w2) as Ho2 by (unfold no_override_ref; by rewrite Hp2).
  assert (_refs (this w2) !! "Root" = Some r1) as Hr1'
    by (by rewrite Hoth).
  split; [|split; [|split]].
  - intros ->. by pose proof (Hinj _ _ _ Hr1' Hr2).
  - destruct (Hown _ _ Hr1') as (n1 & -> & _).
    destruct (Hown _ _ Hr2) as (n2 & -> & _). by exists n1, n2.
  - by apply getRef_cached.
  - by apply getRef_cached.
Qed.

Lemma own_refs_distinct_and_stable_witness :
  reachable idle /\
  getRef "Root" idle = Some (OwnRef 0, ran (getRef "Root") idle) /\
  getRef "Dialog" (ran (getRef "Root") idle)
    = Some (OwnRef 1, ran (getRef "Dialog") (ran (getRef "Root") idle)) /\
  OwnRef 0 <> OwnRef 1 /\
  getRef "Root" (ran (getRef "Dialog") (ran (getRef "Root") idle))
    = Some (OwnRef 0, ran (getRef "Dialog") (ran (getRef "Root") idle)).
Proof.
  assert (reachable idle) as Hr.
  { exists demoProps, true, (Some pageBody), (Some button), [EMount].
    vm_compute. reflexivity. }
  assert (getRef "Root" idle = Some (OwnRef 0, ran (getRef "Root") idle)) as H1
    by (vm_compute; reflexivity).
  assert (getRef "Dialog" (ran (getRef "Root") idle)
          = Some (OwnRef 1, ran (getRef "Dialog") (ran (getRef "Root") idle)))
    as H2 by (vm_compute; reflexivity).
  split; [exact Hr|]. split; [exact H1|]. split; [exact H2|].
  destruct (own_refs_distinct_and_stable idle _ _ _ _ Hr eq_refl H1 H2)
    as (Hne & _ & Hs & _).
  by split.
Defined.

(** ** Focus on opening *)

Lemma autoFocus_throws (w : World) d :
  autofocus (props (this w)) = true ->
  refCurrent (env w) !! refOf "Dialog" w = Some d ->
  el_focus d = false ->
  autoFocus w = None.
Proof.
  intros Ha Hd Hf. unfold autoFocus.
  rewrite (bind_run _ _ w _ w eq_refl). rewrite Ha. simpl.
  destruct (total_getRef "Dialog" w) as [[r w1] Hr].
  rewrite (bind_run _ _ _ _ _ Hr).
  rewrite (bind_run _ _ w1 _ w1 eq_refl).
  keep refCurrentOf Hr. unfold refCurrentOf in K.
  apply getRef_fst in Hr as ->.
  rewrite K, Hd. unfold focus. by rewrite Hf.
Qed.

Lemma autoFocus_focus (w w' : World) :
  autoFocus w = Some (tt, w') ->
  focusNow w' =
    if autofocus (props (this w)) then
      match refCurrent (env w) !! refOf "Dialog" w with
      | Some d => (Some d, focusCalls (env w) ++ [d])
      | None => focusNow w
      end
    else focusNow w.
Proof.
  unfold autoFocus. intros H.
  apply bind_Some in H as (a & w0 & [= <- <-] & H).
  destruct (autofocus (props (this w))); simpl in H; [|by minv H].
  apply bind_Some in H as (r & w1 & Hr & H).
  apply bind_Some in H as (c & w0 & [= <- <-] & H).
  keep refCurrentOf Hr. keep focusNow Hr. unfold refCurrentOf in K.
  apply getRef_fst in Hr as ->. rewrite <- K.
  destruct (refCurrent (env w1) !! refOf "Dialog" w) as [d|].
  - unfold focus in H. destruct (el_focus d); [|done]. minv H.
    unfold focusNow in *. wsimpl. by injection K0 as _ ->.
  - by minv H.
Qed.

Lemma keeps_focusNow_after_autoFocus :
  keeps focusNow
    (r <- getRef "Root" ;;
     rootRef <- get (fun w => refCurrent (env w) !! r) ;;
     match rootRef with
     | Some e =>
       modify (on_env (fun h => with_scrollTop (<[el_id e := 0]> (scrollTop h)) h))
     | None => ret tt
     end ;;;
     clearTimers ;;;
     addDomEvents ;;;
     id <- requestAnimationFrame CbAnimateStart ;;
     modify (on_this (with_animateStartTimer (Some id)))).
Proof. keeps_method. Qed.

(** X5: [open] moves the focus to the element attached to the Dialog ref
    when [autofocus] is set and there is one, and nowhere otherwise; when
    that element has no [focus] method, [open] ends in an uncaught error. *)
Theorem open_autofocus (w : World) :
  (forall w', open w = Some (tt, w') ->
     focusNow w' =
       if autofocus (props (this w)) then
         match refCurrent (env w) !! refOf "Dialog" w with
         | Some d => (Some d, focusCalls (env w) ++ [d])
         | None => focusNow w
         end
       else focusNow w) /\
  (forall d, autofocus (props (this w)) = true ->
     refCurrent (env w) !! refOf "Dialog" w = Some d ->
     el_focus d = false ->
     open w = None).
Proof.
  split.
  - intros w' H. unfold open in H.
    apply bind_Some in H as ([] & w1 & H1 & H).
    apply bind_Some in H as ([] & w2 & H2 & H).
    apply keeps_focusNow_after_autoFocus in H. rewrite H.
    apply captureLastFocus_spec in H1 as ->.
    by apply autoFocus_focus in H2.
  - intros d Ha Hd Hf. unfold open.
    destruct (total_unit captureLastFocus w total_captureLastFocus) as [w1 H1].
    rewrite (bind_run _ _ _ _ _ H1).
    apply captureLastFocus_spec in H1 as ->.
    unfold bind. by rewrite (autoFocus_throws _ d).
Qed.

Lemma open_autofocus_witness :
  focusNow (ran open attached)
    = (Some dialogNode, focusCalls (env attached) ++ [dialogNode]) /\
  focusNow (ran open (on_this (with_props (setAutofocus false demoProps)) attached))
    = focusNow attached /\
  autofocus (props (this attachedToIcon)) = true /\
  refCurrent (env attachedToIcon) !! refOf "Dialog" attachedToIcon = Some svgIcon /\
  open attachedToIcon = None.
Proof.
  assert (open attached = Some (tt, ran open attached)) as H
    by (vm_compute; reflexivity).
  assert (open (on_this (with_props (setAutofocus false demoProps)) attached)
          = Some (tt, ran open (on_this (with_props (setAutofocus false demoProps))
                                        attached))) as H'
    by (vm_compute; reflexivity).
  assert (refCurrent (env attachedToIcon) !! refOf "Dialog" attachedToIcon
          = Some svgIcon) as Hd by (vm_compute; reflexivity).
  split; [|split; [|split; [reflexivity|split; [exact Hd|]]]].
  - rewrite (proj1 (open_autofocus attached) _ H). vm_compute. reflexivity.
  - rewrite (proj1 (open_autofocus _) _ H'). vm_compute. reflexivity.
  - exact (proj2 (open_autofocus attachedToIcon) svgIcon eq_refl Hd eq_refl).
Defined.

(** ** Props and element type of the five slots *)


Lemma spread_base (base ov : PropsObj) k :
  ov !! k = None -> spread base ov !! k = base !! k.
Proof. apply lookup_union_r. Qed.


(** The slots of the tree [renderModal] builds, by name. *)
Lemma slotNode_jsx name p sh ch r1 r2 n :
  slotNode name (renderModal_jsx p sh ch r1 r2) = Some n ->
  exists styled own cs,
    styledOf name = Some styled /\
    n = RElement (default styled (getOverride (overrides p !! name)))
          (spread (spread own sh) (getOverrideProps (overrides p !! name))) cs /\
    (forall k, sh !! k = None -> own !! k =
       if bool_decide (name = "Root") then
         (list_to_map [("role", VStr (role p)); ("$ref", VRef r1)] : PropsObj) !! k
       else if bool_decide (name = "Backdrop") then
         ({["onClick" := VHandler BackdropClickHandler]} : PropsObj) !! k
       else if bool_decide (name = "Dialog") then
         (list_to_map [("tabIndex", VStr "-1"); ("aria-modal", VStr "true");
                       ("role", VStr "document"); ("$ref", VRef r2)] : PropsObj) !! k
       else if bool_decide (name = "Close") then
         (list_to_map [("aria-label", VStr "Close");
                       ("onClick", VHandler CloseClickHandler)] : PropsObj) !! k
       else None).
Proof.
  unfold slotNode. intros Hn.
  repeat case_bool_decide; subst; try done.
  - injection Hn as <-. eexists StyledRoot, _, _.
    split; [reflexivity|]. split; [reflexivity|]. done.
  - rewrite backdropSlot_jsx_eq in Hn. injection Hn as <-.
    eexists StyledBackdrop, _, _.
    split; [reflexivity|]. split; [reflexivity|]. done.
  - injection Hn as <-. exists StyledDialogContainer, ∅.
    eexists. split; [reflexivity|]. split.
    + assert (spread ∅ sh = sh) as ->
        by (unfold spread; apply (right_id_L ∅ (∪))).
      reflexivity.
    + done.
  - injection Hn as <-. eexists StyledDialog, _, _.
    split; [reflexivity|]. split; [reflexivity|]. done.
  - rewrite closeSlot_jsx in Hn. destruct (closeable p); [|done].
    injection Hn as <-. eexists StyledClose, _, _.
    split; [reflexivity|]. split; [reflexivity|]. done.
Qed.



(** X7: unless the slot's override sets the prop itself, the Dialog on
    screen carries [aria-modal] "true", [role] "document" and [tabIndex]
    "-1", the Root carries the [role] of the props, and the Close button
    carries [aria-label] "Close". *)
Theorem slot_fixed_attributes (w : World) p name n k v :
  rendered w = Some p ->
  slotNode name (portal_child p) = Some n ->
  getOverrideProps (overrides (props (this w)) !! name) !! k = None ->
  (name, k, v) ∈ [ ("Dialog", "aria-modal", VStr "true");
                   ("Dialog", "role", VStr "document");
                   ("Dialog", "tabIndex", VStr "-1");
                   ("Root", "role", VStr (role (props (this w))));
                   ("Close", "aria-label", VStr "Close") ] ->
  propsOf n !! k = Some v.
Proof.
  intros (r1 & r2 & ->)%rendered_inv
         (styled & own & cs & _ & -> & Hown)%slotNode_jsx Hov Hk.
  cbn [propsOf]. rewrite spread_base by done.
  repeat (apply elem_of_cons in Hk as [[= -> -> ->]|Hk];
          [by rewrite spread_base, Hown by reflexivity|]).
  by apply elem_of_nil in Hk.
Qed.

Lemma slot_fixed_attributes_witness :
  exists p n,
    rendered opened = Some p /\
    slotNode "Dialog" (portal_child p) = Some n /\
    propsOf n !! "aria-modal" = Some (VStr "true").
Proof.
  destruct (rendered opened) as [p|] eqn:Hp; [|by vm_compute in Hp].
  destruct (slotNode "Dialog" (portal_child p)) as [n|] eqn:Hn;
    [|by vm_compute in Hp; injection Hp as <-; vm_compute in Hn].
  exists p, n. split; [done|]. split; [done|].
  apply (slot_fixed_attributes _ _ _ _ _ _ Hp Hn); [reflexivity|].
  apply elem_of_cons. by left.
Defined.

(** ** Prop updates and mounting *)

(** X8: when the host renders an attached modal with new props whose
    [isOpen] is the same as before, no transition starts: the update
    succeeds and, beside refs that rendering may create, changes nothing
    but the props. *)
Theorem props_update_without_toggle (p : ModalPropsT) (w : World) :
  phase (env w) = Attached ->
  isOpen p = isOpen (props (this w)) ->
  exists w', step (ESetProps p) w = Some (tt, w') /\
    beside_refs w' = beside_refs (on_this (with_props p) w).
Proof.
  intros Hph Ho. unfold step.
  rewrite (bind_run _ _ w _ w eq_refl).
  rewrite bool_decide_eq_true_2 by done.
  rewrite (bind_run _ _ w _ w eq_refl).
  rewrite (bind_run _ _ w _ w eq_refl).
  rewrite (bind_run _ _ w _ (on_this (with_props p) w) eq_refl).
  destruct (total_render (on_this (with_props p) w)) as [[out w1] Hr].
  rewrite (bind_run _ _ _ _ _ Hr).
  keep beside_refs Hr. keep core Hr.
  exists w1. split; [|exact K].
  rewrite componentDidUpdate_eq.
  assert (transition (props (this w)) (state (this w)) w1 = false) as ->; [|done].
  unfold transition. unfold core in K0. wsimpl.
  injection K0 as -> -> _. rewrite Ho.
  by destruct (isOpen (props (this w))), (mounted (state (this w))).
Qed.

Lemma props_update_without_toggle_witness :
  exists w', step (ESetProps (setCloseable false (props (this opened)))) opened
             = Some (tt, w') /\
    beside_refs w'
    = beside_refs (on_this (with_props (setCloseable false (props (this opened))))
                           opened).
Proof.
  apply props_update_without_toggle; reflexivity.
Defined.

(** X9: mounting sets [mounted]; a modal that is mounted with [isOpen]
    already true runs [open] right then, and one mounted closed starts no
    transition. *)
Theorem mount_opens_preopened (w w' : World) :
  mounted (state (this w)) = false ->
  step EMount w = Some (tt, w') ->
  exists w1,
    beside_refs w1 =
      beside_refs (on_this (with_state (set_mounted true (state (this w))))
                           (on_env (with_phase Attached) w)) /\
    if isOpen (props (this w)) then open w1 = Some (tt, w') else w' = w1.
Proof.
  intros Hm H. unfold step in H.
  apply bind_Some in H as (ph & w0 & [= <- <-] & H).
  case_bool_decide as Hph; [|done].
  apply bind_Some in H as ([] & w1 & [= <-] & H).
  apply bind_Some in H as (out & w2 & Hr & H).
  keep beside_refs Hr.
  apply setState_inv in H as [[Hn _] | (_ & out' & w3 & Hr' & Hu)].
  { exfalso. apply Hn. unfold beside_refs in K. wsimpl.
    by injection K as _ _ _ _ _ _ -> _ _ _ _ _ _ _ _ _ _ _ _. }
  keep beside_refs Hr'. keep core Hr'.
  exists w3. split.
  - rewrite K0. unfold beside_refs in *. wsimpl.
    injection K as -> -> -> -> -> -> -> -> -> -> -> -> -> -> -> -> -> -> ->.
    done.
  - rewrite componentDidUpdate_eq in Hu.
    unfold core, beside_refs in *. wsimpl.
    injection K1 as E1 E2 _. injection K as E3 E4 _.
    assert (transition (props (this w2)) (state (this w2)) w3
            = isOpen (props (this w))) as Ht.
    { unfold transition. rewrite E1, E2, E3, E4, Hm. cbn [set_mounted mounted negb].
      by destruct (isOpen (props (this w))). }
    rewrite Ht, E1, E3 in Hu.
    destruct (isOpen (props (this w))); [done|]. by injection Hu as <-.
Qed.

Lemma mount_opens_preopened_witness :
  (exists w1, open w1 = Some (tt, after [EMount]
                 (initial (setOpen true demoProps) true (Some pageBody) (Some button)))) /\
  (exists w1,
     beside_refs w1 =
       beside_refs (on_this (with_state (set_mounted true (state (this fresh))))
                            (on_env (with_phase Attached) fresh)) /\
     idle = w1).
Proof.
  split.
  - destruct (mount_opens_preopened
                (initial (setOpen true demoProps) true (Some pageBody) (Some button))
                (after [EMount]
                   (initial (setOpen true demoProps) true (Some pageBody) (Some button))))
      as (w1 & _ & H); [reflexivity | vm_compute; reflexivity |].
    by exists w1.
  - apply (mount_opens_preopened fresh idle); [reflexivity | vm_compute; reflexivity].
Defined.

(** ** The exit window *)

Lemma render_some (w : World) n :
  mounted (state (this w)) = true ->
  isOpen (props (this w)) = true \/ isVisible (state (this w)) = true ->
  getMountNode w = Some n ->
  exists t w', render w = Some (Some (createPortal t n), w').
Proof.
  intros Hm Hov Hn.
  destruct (total_renderModal w) as [[t w'] Ht].
  exists t, w'.
  assert (negb (isOpen (props (this w))) && negb (isVisible (state (this w)))
          = false) as Hgate.
  { destruct Hov as [-> | ->]; [done | by rewrite andb_false_r]. }
  unfold render, bind, get. rewrite Hm. simpl.
  by rewrite Hgate, Hn, Ht.
Qed.

Lemma rendered_hidden (w : World) :
  isOpen (props (this w)) = false -> isVisible (state (this w)) = false ->
  rendered w = None.
Proof.
  intros Ho Hv. unfold rendered, render, bind, get.
  destruct (mounted _); simpl; [|done]. by rewrite Ho, Hv.
Qed.

(** X10: when the host sets [isOpen] to false on a painted dialog, the
    update succeeds, the dialog is still on screen afterwards, in the same
    mount node, and the timer that will hide it is pending, due 500 units
    later. *)
Theorem closing_dialog_stays_rendered (p : ModalPropsT) (w : World) n :
  phase (env w) = Attached ->
  mounted (state (this w)) = true ->
  isVisible (state (this w)) = true ->
  isOpen (props (this w)) = true ->
  isOpen p = false ->
  getMountNode (on_this (with_props p) w) = Some n ->
  exists w1 t id,
    step (ESetProps p) w = Some (tt, w1) /\
    rendered w1 = Some (createPortal t n) /\
    isVisible (state (this w1)) = true /\
    animateOutTimer (this w1) = Some id /\
    timeouts (env w1) !! id = Some (now (env w) + 500, CbAnimateOutComplete).
Proof.
  intros Hph Hm Hv Ho Hp Hn.
  destruct (total_render (on_this (with_props p) w)) as [[out w0] Hr].
  destruct (total_unit _ w0 (total_close None)) as [w1 Hc].
  keep core Hr. keep beside_refs Hr. keep core Hc.
  keep (fun w => body (env w)) Hc.
  unfold core, beside_refs in *. wsimpl.
  injection K as Ep Es Eph. injection K1 as Ep1 Es1 Eph1.
  injection K0 as _ _ _ _ _ _ _ _ _ _ _ _ Enow Ebody _ _ _ _ _.
  assert (step (ESetProps p) w = Some (tt, w1)) as Hstep.
  { unfold step. rewrite (bind_run _ _ w _ w eq_refl).
    rewrite bool_decide_eq_true_2 by done.
    rewrite (bind_run _ _ w _ w eq_refl), (bind_run _ _ w _ w eq_refl).
    rewrite (bind_run _ _ w _ (on_this (with_props p) w) eq_refl).
    rewrite (bind_run _ _ _ _ _ Hr). rewrite componentDidUpdate_eq.
    unfold transition. rewrite Ep, Hp, Ho. exact Hc. }
  destruct (render_some w1 n) as (t & w2 & Hr1).
  { by rewrite Es1, Es. }
  { right. by rewrite Es1, Es. }
  { unfold getMountNode in *. wsimpl. by rewrite Ep1, K2, Ep, Ebody. }
  destruct (close_schedules_hide _ _ _ Hc) as (id & Hid & Ht).
  exists w1, t, id. split; [done|]. split; [|split; [|split]].
  - unfold rendered. by rewrite Hr1.
  - by rewrite Es1, Es.
  - done.
  - by rewrite Ht, Enow.
Qed.

Lemma closing_dialog_stays_rendered_witness :
  exists w1 t id,
    step (ESetProps (setOpen false demoProps)) opened = Some (tt, w1) /\
    rendered w1 = Some (createPortal t pageBody) /\
    isVisible (state (this w1)) = true /\
    animateOutTimer (this w1) = Some id /\
    timeouts (env w1) !! id = Some (now (env opened) + 500, CbAnimateOutComplete).
Proof.
  apply (closing_dialog_stays_rendered (setOpen false demoProps) opened pageBody);
    reflexivity.
Defined.

(** X11: in a reachable world of an attached modal whose [isOpen] is
    false, whichever timer fires hides the dialog: afterwards [isVisible]
    is false and nothing is rendered. *)
Theorem hide_timer_clears_screen id (w w' : World) :
  reachable w ->
  phase (env w) = Attached ->
  isOpen (props (this w)) = false ->
  step (ETimeout id) w = Some (tt, w') ->
  isVisible (state (this w')) = false /\ rendered w' = None.
Proof.
  intros [_ Hto]%reachable_sched_ok Hph Ho H.
  pose proof (step_ETimeout_hides _ _ _ H Hph Hto) as Hv.
  split; [done|]. apply rendered_hidden; [|done].
  pose proof (step_core _ _ _ H) as Hc. unfold core, coreAfter in Hc.
  apply step_ETimeout_inv in H as (due & cb & Hl & _).
  rewrite Hl in Hc. by injection Hc as -> _ _.
Qed.

Lemma hide_timer_clears_screen_witness :
  reachable (after [ESetProps (setOpen false demoProps); ETick 500] opened) /\
  step (ETimeout 1%positive)
       (after [ESetProps (setOpen false demoProps); ETick 500] opened)
  = Some (tt, after [ESetProps (setOpen false demoProps); ETick 500;
                     ETimeout 1%positive] opened) /\
  rendered (after [ESetProps (setOpen false demoProps); ETick 500;
                   ETimeout 1%positive] opened) = None.
Proof.
  assert (reachable (after [ESetProps (setOpen false demoProps); ETick 500] opened))
    as Hr.
  { exists demoProps, true, (Some pageBody), (Some button),
      [EMount; ESetProps (setOpen true demoProps); EFrame 1%positive;
       ESetProps (setOpen false demoProps); ETick 500].
    vm_compute. reflexivity. }
  assert (step (ETimeout 1%positive)
            (after [ESetProps (setOpen false demoProps); ETick 500] opened)
          = Some (tt, after [ESetProps (setOpen false demoProps); ETick 500;
                             ETimeout 1%positive] opened)) as Hs
    by (vm_compute; reflexivity).
  split; [exact Hr|]. split; [exact Hs|].
  apply (hide_timer_clears_screen _ _ _ Hr eq_refl eq_refl Hs).
Defined.

(** ** Frame requests *)

Lemma preserves_frames_show_keeps {A} (m : M A) :
  keeps (fun w => frames (env w)) m -> preserves frames_show m.
Proof. intros Hk w a w' H%Hk. unfold frames_show. by rewrite H. Qed.

Lemma preserves_frames_show_requestAnimationFrame :
  preserves frames_show (requestAnimationFrame CbAnimateStart).
Proof.
  intros w id w' H Hw. rewrite requestAnimationFrame_eq in H.
  injection H as _ <-. unfold frames_show. wsimpl. intros i cb.
  destruct (decide (nextFrame (env w) = i)) as [->|Hne].
  - rewrite lookup_insert_eq. congruence.
  - rewrite lookup_insert_ne by done. apply Hw.
Qed.

Lemma preserves_frames_show_cancelAnimationFrame id :
  preserves frames_show (cancelAnimationFrame id).
Proof.
  intros w [] w' [= <-] Hw. unfold frames_show. wsimpl.
  intros i cb [_ H]%lookup_delete_Some. by eapply Hw.
Qed.

#[local] Hint Resolve preserves_frames_show_requestAnimationFrame
  preserves_frames_show_cancelAnimationFrame : preserves.

Lemma preserves_frames_show_step e : preserves frames_show (step e).
Proof. destruct e; unfold step; preserves_with @preserves_frames_show_keeps. Qed.

Lemma reachable_frames_show (w : World) : reachable w -> frames_show w.
Proof.
  intros (p & browser & bodyEl & active & es & H).
  eapply (run_preserves _ preserves_frames_show_step); [done|].
  intros id cb. simpl. by rewrite lookup_empty.
Qed.

(** When every pending frame request is the tracked one, [clearTimers]
    leaves none. *)
Lemma clearTimers_frames (w w' : World) :
  sched_ok w -> clearTimers w = Some (tt, w') -> frames (env w') = ∅.
Proof.
  intros [Hfr _] (_ & _ & Hf & _)%clearTimers_spec.
  apply map_empty. intros i. rewrite Hf.
  destruct (frames (env w) !! i) as [cb|] eqn:Ei.
  - rewrite (Hfr _ _ Ei). apply lookup_delete_eq.
  - destruct (animateStartTimer (this w)); [|done].
    by rewrite lookup_delete_None; right.
Qed.

Lemma step_phase e (w w' : World) :
  step e w = Some (tt, w') ->
  phase (env w') = match e with
                   | EMount => Attached
                   | EUnmount => Detached
                   | _ => phase (env w)
                   end.
Proof.
  intros H%step_core. unfold core in H.
  destruct e; unfold coreAfter, core in H; repeat case_match;
    by injection H as _ _ ->.
Qed.

Lemma keeps_frames_EKeyup event :
  keeps (fun w => frames (env w)) (step (EKeyup event)).
Proof. unfold step. keeps_method. Qed.

Lemma keeps_frames_EClick s : keeps (fun w => frames (env w)) (step (EClick s)).
Proof.
  unfold step. apply keeps_bind; [apply keeps_get|].
  intros [n|]; [|apply keeps_throw].
  unfold click. destruct (onClickOf n) as [[]|]; keeps_method.
Qed.

Lemma preserves_frames_only_attached_step e (w w' : World) :
  step e w = Some (tt, w') ->
  sched_ok w -> frames_only_attached w -> frames_only_attached w'.
Proof.
  intros H Hs Hw. pose proof (step_phase _ _ _ H) as Hph.
  unfold frames_only_attached in *. rewrite Hph.
  destruct e as [|p| |event|s|d|id|id|a|r a].
  - done.
  - intros Hn. exfalso. apply Hn.
    unfold step in H. apply bind_Some in H as (ph & w0 & [= <- <-] & H).
    by case_bool_decide.
  - intros _. unfold step in H.
    apply bind_Some in H as (ph & w0 & [= <- <-] & H).
    case_bool_decide; [|done].
    apply bind_Some in H as ([] & w1 & Hu & [= <-]). wsimpl.
    unfold componentWillUnmount in Hu.
    apply bind_Some in Hu as ([] & w2 & Hrm & Hct).
    apply (clearTimers_frames w2); [|done].
    eapply sched_ok_view; [|exact Hs].
    refine ((_ : keeps schedView removeDomEvents) _ _ _ Hrm). keeps_method.
  - intros Hn. apply keeps_frames_EKeyup in H. rewrite H. auto.
  - intros Hn. apply keeps_frames_EClick in H. rewrite H. auto.
  - intros Hn. injection H as <-. wsimpl. auto.
  - intros Hn. apply step_ETimeout_inv in H as (due & cb & _ & _ & _ & ->). auto.
  - intros Hn. apply step_EFrame_inv in H as (cb & Hl & _).
    by rewrite (Hw Hn), lookup_empty in Hl.
  - intros Hn. injection H as <-. wsimpl. auto.
  - intros Hn. injection H as <-. wsimpl. auto.
Qed.

Lemma run_frames_only_attached es (w w' : World) :
  run es w = Some w' ->
  sched_ok w -> frames_only_attached w -> frames_only_attached w'.
Proof.
  revert w. induction es as [|e es IH]; intros w; simpl.
  - by intros [= <-].
  - destruct (step e w) as [[[] w1]|] eqn:He; [|done].
    intros H Hs Hw. apply (IH w1 H).
    + by eapply preserves_sched_ok_step.
    + by eapply preserves_frames_only_attached_step.
Qed.

Lemma reachable_frames_only_attached (w : World) :
  reachable w -> frames_only_attached w.
Proof.
  intros (p & browser & bodyEl & active & es & H).
  eapply run_frames_only_attached; [done | apply initial_sched_ok |].
  by intros _.
Qed.

(** X12: in a reachable world a frame request is pending only on an
    attached instance, and it is the only one; when it arrives, the dialog
    becomes visible and no frame request is left. *)
Theorem frame_shows_dialog id (w w' : World) :
  reachable w ->
  step (EFrame id) w = Some (tt, w') ->
  phase (env w') = Attached /\
  isVisible (state (this w')) = true /\
  frames (env w') = ∅ /\
  animateStartTimer (this w) = Some id.
Proof.
  intros Hr H.
  pose proof (reachable_sched_ok _ Hr) as [Hfr _].
  pose proof (reachable_frames_show _ Hr) as Hshow.
  pose proof (reachable_frames_only_attached _ Hr) as Hatt.
  pose proof (step_core _ _ _ H) as Hc. unfold core, coreAfter in Hc.
  apply step_EFrame_inv in H as (cb & Hl & Hf & _).
  rewrite Hl in Hc. injection Hc as _ Hst Hph.
  assert (phase (env w) = Attached) as Hatt'.
  { destruct (decide (phase (env w) = Attached)) as [|Hn]; [done|].
    by rewrite (Hatt Hn), lookup_empty in Hl. }
  split; [congruence|]. split; [|split].
  - rewrite Hst, (Hshow _ _ Hl). unfold stateAfter.
    by rewrite bool_decide_eq_true_2.
  - apply map_empty. intros i. rewrite Hf.
    destruct (decide (id = i)) as [->|Hne]; [apply lookup_delete_eq|].
    rewrite lookup_delete_ne by done.
    destruct (frames (env w) !! i) as [cb'|] eqn:Ei; [|done].
    pose proof (Hfr _ _ Ei). pose proof (Hfr _ _ Hl). congruence.
  - by eapply Hfr.
Qed.

Lemma frame_shows_dialog_witness :
  reachable (after [ESetProps (setOpen true demoProps)] idle) /\
  step (EFrame 1%positive) (after [ESetProps (setOpen true demoProps)] idle)
    = Some (tt, opened) /\
  isVisible (state (this opened)) = true /\
  frames (env opened) = ∅.
Proof.
  assert (reachable (after [ESetProps (setOpen true demoProps)] idle)) as Hr.
  { exists demoProps, true, (Some pageBody), (Some button),
      [EMount; ESetProps (setOpen true demoProps)].
    vm_compute. reflexivity. }
  assert (step (EFrame 1%positive) (after [ESetProps (setOpen true demoProps)] idle)
          = Some (tt, opened)) as Hs by (vm_compute; reflexivity).
  split; [exact Hr|]. split; [exact Hs|].
  destruct (frame_shows_dialog _ _ _ Hr Hs) as (_ & Hv & Hf & _).
  by split.
Defined.

(** ** The memento over the life of the instance *)

Lemma close_lastFocus source (w w' : World) :
  close source w = Some (tt, w') -> lastFocus (this w') = None.
Proof.
  intros H%close_focus. unfold focusView in H.
  destruct (lastFocus (this w)) as [e|] eqn:E.
  - destruct (el_focus e); by injection H as -> _ _.
  - injection H as -> _ _. done.
Qed.

(** What one event makes of the memento: it leaves it (and [isOpen])
    alone, or clears it, or the modal has just been opened, from the
    closed state or on mounting. *)
Lemma step_lastFocus e (w w' : World) :
  step e w = Some (tt, w') ->
  (lastFocus (this w') = lastFocus (this w) /\
   isOpen (props (this w')) = isOpen (props (this w))) \/
  lastFocus (this w') = None \/
  (isOpen (props (this w')) = true /\ phase (env w') = Attached /\
   (phase (env w) = Constructed \/
    (phase (env w) = Attached /\ isOpen (props (this w)) = false))).
Proof.
  intros H.
  assert (forall source (w1 : World), close source w1 = Some (tt, w') ->
            lastFocus (this w') = None) as Hclose.
  { intros source w1. apply close_lastFocus. }
  assert (forall cb (w1 : World),
            lastFocus (this w1) = lastFocus (this w) ->
            props (this w1) = props (this w) ->
            runCallback cb w1 = Some (tt, w') ->
            lastFocus (this w') = lastFocus (this w) /\
            isOpen (props (this w')) = isOpen (props (this w))) as Hcb.
  { intros cb w1 El Ep Hc%runCallback_beside_refs.
    unfold beside_refs in Hc. wsimpl.
    injection Hc as -> _ _ _ -> _ _ _ _ _ _ _ _ _ _ _ _ _ _.
    by rewrite El, Ep. }
  destruct e as [|p| |event|s|d|id|id|a|r a]; unfold step in H.
  - (* mount *)
    apply bind_Some in H as (ph & w0 & [= <- <-] & H).
    case_bool_decide as Hph; [|done].
    apply bind_Some in H as ([] & w1 & [= <-] & H).
    apply bind_Some in H as (out & w2 & Hr & H).
    keep lastFocusOf Hr. keep core Hr. unfold lastFocusOf, core in *. wsimpl.
    injection K0 as Ep _ Eph.
    apply setState_inv in H as [[_ ->] | (_ & out' & w3 & Hr' & Hu)].
    { left. by rewrite K, Ep. }
    keep lastFocusOf Hr'. keep core Hr'. unfold lastFocusOf, core in *. wsimpl.
    injection K1 as Ep' _ Eph'.
    rewrite componentDidUpdate_eq in Hu.
    destruct (transition _ _ w3).
    + destruct (isOpen (props (this w3))) eqn:Ho.
      * right. right. keep core Hu. unfold core in K1.
        injection K1 as -> _ ->. rewrite Eph', Eph. auto.
      * right. left. by eapply Hclose.
    + injection Hu as <-. left. by rewrite K0, K, Ep', Ep.
  - (* props *)
    apply bind_Some in H as (ph & w0 & [= <- <-] & H).
    case_bool_decide as Hph; [|done].
    apply bind_Some in H as (pp & w0 & [= <- <-] & H).
    apply bind_Some in H as (ps & w0 & [= <- <-] & H).
    apply bind_Some in H as ([] & w1 & [= <-] & H).
    apply bind_Some in H as (out & w2 & Hr & Hu).
    keep lastFocusOf Hr. keep core Hr. unfold lastFocusOf, core in *. wsimpl.
    injection K0 as Ep Es Eph.
    rewrite componentDidUpdate_eq in Hu. unfold transition in Hu.
    rewrite Ep, Es in Hu.
    assert (isOpen p && mounted (state (this w))
            && negb (mounted (state (this w))) = false) as Hnever
      by (by destruct (isOpen p), (mounted (state (this w)))).
    rewrite Hnever, orb_false_r in Hu.
    destruct (eqb (isOpen p) (isOpen (props (this w)))) eqn:Heq;
      cbn [negb] in Hu.
    + injection Hu as <-. left. rewrite K, Ep. split; [done|].
      by apply eqb_prop.
    + destruct (isOpen p) eqn:Ho.
      * right. right. keep core Hu. unfold core in K0.
        injection K0 as -> _ ->. rewrite Ep, Eph.
        split; [done|]. split; [done|]. right.
        split; [done|]. by destruct (isOpen (props (this w))).
      * right. left. by eapply Hclose.
  - (* unmount *)
    apply bind_Some in H as (ph & w0 & [= <- <-] & H).
    case_bool_decide as Hph; [|done].
    apply bind_Some in H as ([] & w1 & Hu & [= <-]).
    keep lastFocusOf Hu. keep core Hu. unfold lastFocusOf, core in *. wsimpl.
    injection K0 as -> _ _. left. by rewrite K.
  - (* keyup *)
    apply bind_Some in H as (l & w0 & [= <- <-] & H).
    destruct (keyupListener (env w)); [|injection H as <-; by left].
    rewrite onDocumentKeyPress_eq in H.
    destruct (escapeCloses event w); [right; left; by eapply Hclose|].
    injection H as <-. by left.
  - (* click *)
    apply bind_Some in H as (n & w0 & [= <- <-] & H).
    destruct (clicked s w) as [n|]; [|done].
    unfold click in H. destruct (onClickOf n) as [[| |k]|].
    + unfold onBackdropClick, bind, get in H.
      destruct (negb (closeable (props (this w)))).
      * injection H as <-. by left.
      * right. left. by eapply Hclose.
    + right. left. by eapply Hclose.
    + injection H as <-. by left.
    + injection H as <-. by left.
  - injection H as <-. by left.
  - (* timer *)
    apply bind_Some in H as (t & w0 & [= <- <-] & H).
    destruct (timeouts (env w) !! id) as [[due cb]|]; [|done].
    apply bind_Some in H as (n & w0 & [= <- <-] & H).
    case_bool_decide; [|done].
    apply bind_Some in H as ([] & w1 & [= <-] & H).
    left. refine (Hcb _ _ _ _ H); reflexivity.
  - (* frame *)
    apply bind_Some in H as (f & w0 & [= <- <-] & H).
    destruct (frames (env w) !! id) as [cb|]; [|done].
    apply bind_Some in H as ([] & w1 & [= <-] & H).
    left. refine (Hcb _ _ _ _ H); reflexivity.
  - injection H as <-. by left.
  - injection H as <-. by left.
Qed.

Lemma step_EMount_phase (w w' : World) :
  step EMount w = Some (tt, w') -> phase (env w) = Constructed.
Proof.
  unfold step. intros H.
  apply bind_Some in H as (ph & w0 & [= <- <-] & H).
  by case_bool_decide.
Qed.

Lemma preserves_memento_only_open_step e :
  preserves memento_only_open (step e).
Proof.
  intros w [] w' H [Hc Ha].
  pose proof (step_phase _ _ _ H) as Hph.
  assert (phase (env w') = Constructed -> phase (env w) = Constructed) as Hcon.
  { intros Hph'. rewrite Hph' in Hph. by destruct e. }
  assert (phase (env w') = Attached ->
          phase (env w) = Constructed \/ phase (env w) = Attached) as Hatt.
  { intros Hph'. rewrite Hph' in Hph.
    destruct e; try discriminate; try (by right).
    left. by eapply step_EMount_phase. }
  destruct (step_lastFocus _ _ _ H) as [[El Eo] | [El | (Eo & Eph & _)]]; split.
  - rewrite El. auto.
  - rewrite El, Eo. intros [Hx | Hx]%Hatt; auto.
  - done.
  - done.
  - intros Hx. congruence.
  - intros _ Ho. congruence.
Qed.

Lemma reachable_memento_only_open (w : World) :
  reachable w -> memento_only_open w.
Proof.
  intros (p & browser & bodyEl & active & es & H).
  eapply (run_preserves _ preserves_memento_only_open_step); [done|].
  by split.
Qed.

(** X13: in every reachable world a memento is held only by a modal that
    is in the tree with [isOpen] true, or by one that was unmounted. *)
Theorem memento_only_while_open (w : World) x :
  reachable w ->
  lastFocus (this w) = Some x ->
  (phase (env w) = Attached /\ isOpen (props (this w)) = true) \/
  phase (env w) = Detached.
Proof.
  intros [Hc Ha]%reachable_memento_only_open Hx.
  destruct (phase (env w)) eqn:Hph; [|left|by right].
  - rewrite Hc in Hx; done.
  - split; [done|]. destruct (isOpen (props (this w))) eqn:Ho; [done|].
    rewrite Ha in Hx; done.
Qed.

Lemma memento_only_while_open_witness :
  reachable opened /\ lastFocus (this opened) = Some button /\
  ((phase (env opened) = Attached /\ isOpen (props (this opened)) = true) \/
   phase (env opened) = Detached).
Proof.
  assert (reachable opened) as Hr.
  { exists demoProps, true, (Some pageBody), (Some button),
      [EMount; ESetProps (setOpen true demoProps); EFrame 1%positive].
    vm_compute. reflexivity. }
  split; [exact Hr|]. split; [reflexivity|].
  apply (memento_only_while_open opened button Hr). reflexivity.
Defined.

(** X14: no event replaces a memento that is held by another one: from a
    reachable world, an event keeps the memento or clears it. *)
Theorem memento_never_overwritten e (w w' : World) x :
  reachable w ->
  step e w = Some (tt, w') ->
  lastFocus (this w) = Some x ->
  lastFocus (this w') = Some x \/ lastFocus (this w') = None.
Proof.
  intros [Hc Ha]%reachable_memento_only_open H Hx.
  destruct (step_lastFocus _ _ _ H) as [[El _] | [El | (_ & _ & Hfrom)]].
  - left. by rewrite El.
  - by right.
  - destruct Hfrom as [Hy | [Hy Ho]].
    + rewrite Hc in Hx; done.
    + rewrite Ha in Hx; done.
Qed.

Lemma memento_never_overwritten_witness :
  reachable opened /\
  step (EKeyup escapeKey) opened = Some (tt, after [EKeyup escapeKey] opened) /\
  lastFocus (this opened) = Some button /\
  lastFocus (this (after [EKeyup escapeKey] opened)) = None.
Proof.
  assert (reachable opened) as Hr.
  { exists demoProps, true, (Some pageBody), (Some button),
      [EMount; ESetProps (setOpen true demoProps); EFrame 1%positive].
    vm_compute. reflexivity. }
  assert (step (EKeyup escapeKey) opened
          = Some (tt, after [EKeyup escapeKey] opened)) as Hs
    by (vm_compute; reflexivity).
  split; [exact Hr|]. split; [exact Hs|]. split; [reflexivity|].
  destruct (memento_never_overwritten _ _ _ button Hr Hs eq_refl) as [Hk | Hn].
  - by vm_compute in Hk.
  - exact Hn.
Defined.

(** ** What unmounting leaves alone *)

(** X15: unmounting neither restores the focus nor drops the memento, and
    it does not call [onClose]. *)
Theorem unmount_keeps_focus (w w' : World) :
  step EUnmount w = Some (tt, w') ->
  focusView w' = focusView w /\ onCloseCalls (env w') = onCloseCalls (env w).
Proof.
  unfold step. intros H.
  apply bind_Some in H as (ph & w0 & [= <- <-] & H).
  case_bool_decide; [|done].
  apply bind_Some in H as ([] & w1 & Hu & [= <-]).
  keep focusView Hu. keep onCloseCallsOf Hu. by split.
Qed.

Lemma unmount_keeps_focus_witness :
  step EUnmount opened = Some (tt, after [EUnmount] opened) /\
  focusView (after [EUnmount] opened) = (Some button, Some button, []).
Proof.
  assert (step EUnmount opened = Some (tt, after [EUnmount] opened)) as Hs
    by (vm_compute; reflexivity).
  split; [exact Hs|].
  destruct (unmount_keeps_focus _ _ Hs) as [-> _]. reflexivity.
Defined.

(** ** [clearTimers] twice *)

(** X16: [clearTimers] removes from the pending timers and frame requests
    the ones that the two handles name, and changes nothing else: the
    handles themselves stay; calling it again, on handles that are stale by
    then, changes nothing. *)
Theorem clearTimers_idempotent (w w1 : World) :
  clearTimers w = Some (tt, w1) ->
  this w1 = this w /\
  timeouts (env w1) = cancelled (animateOutTimer (this w)) (timeouts (env w)) /\
  frames (env w1) = cancelled (animateStartTimer (this w)) (frames (env w)) /\
  (forall id, animateOutTimer (this w) = Some id ->
     timeouts (env w1) !! id = None) /\
  (forall id, animateStartTimer (this w) = Some id ->
     frames (env w1) !! id = None) /\
  besideTimers w1 = besideTimers w /\
  clearTimers w1 = Some (tt, w1).
Proof.
  intros H.
  pose proof (clearTimers_spec _ _ H) as (Hthis & Hto & Hfr & Hnt & Hnf).
  keep (fun w => (BROWSER (env w), phase (env w), keyupListener (env w),
                  now (env w), body (env w), activeElement (env w),
                  focusCalls (env w), scrollTop (env w), refCurrent (env w),
                  nextRef (env w), onCloseCalls (env w))) H.
  assert (besideTimers w1 = besideTimers w) as Hb
    by (unfold besideTimers; congruence).
  split; [done|]. split; [done|]. split; [done|].
  split; [|split; [|split; [done|]]].
  - intros id Hid. rewrite Hto, Hid. apply lookup_delete_eq.
  - intros id Hid. rewrite Hfr, Hid. apply lookup_delete_eq.
  - clear Hthis Hto Hfr Hnt Hnf K Hb. revert H.
    unfold clearTimers, bind, get, clearTimeout, cancelAnimationFrame, modify, ret.
    destruct w as [m h], h. wsimpl.
    destruct (animateOutTimer m) as [t|] eqn:Et,
             (animateStartTimer m) as [f|] eqn:Ef;
      repeat (wsimpl; rewrite ?Et, ?Ef);
      unfold on_env, with_timeouts, with_frames; wsimpl;
      intros H; injection H as H; subst w1;
      repeat (wsimpl; rewrite ?Et, ?Ef);
      by rewrite ?delete_delete_eq.
Qed.

Lemma clearTimers_idempotent_witness :
  timeouts (env (after openedAndClosed fresh)) !! 1%positive
    = Some (500, CbAnimateOutComplete) /\
  frames (env (after openedAndClosed fresh)) !! 1%positive = Some CbAnimateStart /\
  clearTimers (after openedAndClosed fresh)
    = Some (tt, ran clearTimers (after openedAndClosed fresh)) /\
  timeouts (env (ran clearTimers (after openedAndClosed fresh))) = ∅ /\
  frames (env (ran clearTimers (after openedAndClosed fresh))) = ∅ /\
  this (ran clearTimers (after openedAndClosed fresh))
    = this (after openedAndClosed fresh) /\
  clearTimers (ran clearTimers (after openedAndClosed fresh))
    = Some (tt, ran clearTimers (after openedAndClosed fresh)).
Proof.
  assert (clearTimers (after openedAndClosed fresh)
          = Some (tt, ran clearTimers (after openedAndClosed fresh))) as H
    by (vm_compute; reflexivity).
  destruct (clearTimers_idempotent _ _ H) as (Hthis & Hto & Hfr & _ & _ & _ & Hagain).
  split; [vm_compute; reflexivity|]. split; [vm_compute; reflexivity|].
  split; [exact H|].
  split; [rewrite Hto; vm_compute; reflexivity|].
  split; [rewrite Hfr; vm_compute; reflexivity|].
  split; [exact Hthis | exact Hagain].
Defined.

(** ** The scroll reset of [open] *)

Lemma autoFocus_own_refs (w w' : World) c :
  no_override_ref w -> c <> "Dialog" ->
  autoFocus w = Some (tt, w') ->
  _refs (this w') !! c = _refs (this w) !! c /\
  props (this w') = props (this w) /\
  scrollTop (env w') = scrollTop (env w) /\
  refCurrent (env w') = refCurrent (env w).
Proof.
  intros Ho Hc H.
  keep (fun w => (props (this w), scrollTop (env w), refCurrent (env w))) H.
  injection K as -> -> ->. split; [|done].
  unfold autoFocus in H.
  apply bind_Some in H as (a & w0 & [= <- <-] & H).
  destruct (negb (autofocus (props (this w)))); [by injection H as <-|].
  apply bind_Some in H as (r & w1 & Hr & H).
  apply getRef_own_inv in Hr as (_ & Hoth & _); [|done].
  rewrite <- (Hoth c Hc).
  apply bind_Some in H as (d & w0 & [= <- <-] & H).
  destruct (refCurrent (env w1) !! r) as [d|]; [|by injection H as <-].
  keep (fun w => _refs (this w)) H. by rewrite K.
Qed.

(** X17: when the Root's ref exists and no override brings a ref, [open]
    sets to 0 the scroll position of the element attached to the Root's
    ref, and of no other element. *)
Theorem open_resets_root_scroll (w w' : World) r :
  no_override_ref w ->
  _refs (this w) !! "Root" = Some r ->
  open w = Some (tt, w') ->
  scrollTop (env w') =
    match refCurrent (env w) !! r with
    | Some e => <[el_id e := 0]> (scrollTop (env w))
    | None => scrollTop (env w)
    end.
Proof.
  intros Ho Hr
    (w1 & w2 & r' & w3 & w4 & w5 & w6 & H1 & H2 & H3 & E4 & H5 & H6 & ->)%open_inv.
  apply captureLastFocus_spec in H1 as ->.
  apply autoFocus_own_refs with (c := "Root") in H2 as (Er & Ep & Es & Ec);
    [|done..].
  wsimpl.
  rewrite getRef_cached with (r := r) in H3.
  - injection H3 as <- <-.
    keep scrollTopOf H5. keep scrollTopOf H6. unfold scrollTopOf in *. wsimpl.
    rewrite K0, K, E4, Ec. destruct (refCurrent (env w) !! r); wsimpl; by rewrite Es.
  - unfold no_override_ref in *. by rewrite Ep.
  - by rewrite Er.
Qed.

Lemma open_resets_root_scroll_witness :
  exists w',
    open (on_env (with_scrollTop {[ 2 := 120; 3 := 40 ]}) attached) = Some (tt, w') /\
    scrollTop (env w') = {[ 2 := 0; 3 := 40 ]}.
Proof.
  destruct (open (on_env (with_scrollTop {[ 2 := 120; 3 := 40 ]}) attached))
    as [[[] w']|] eqn:H; [|by vm_compute in H].
  exists w'. split; [done|].
  assert (no_override_ref
            (on_env (with_scrollTop {[ 2 := 120; 3 := 40 ]}) attached)) as Ho
    by reflexivity.
  assert (_refs (this (on_env (with_scrollTop {[ 2 := 120; 3 := 40 ]}) attached))
            !! "Root" = Some (OwnRef 0)) as Hr by (vm_compute; reflexivity).
  rewrite (open_resets_root_scroll _ _ _ Ho Hr H).
  vm_compute. reflexivity.
Defined.

(** ** The portal's container *)

(** X18: the portal goes into the [mountNode] of the props when there is
    one and into the document's body otherwise; with neither, [render]
    returns [null] and changes nothing. *)
Theorem portal_container_is_mount_node (w : World) :
  (mountNode (props (this w)) = None -> body (env w) = None ->
   render w = Some (None, w)) /\
  (forall p w', render w = Some (Some p, w') ->
     Some (portal_container p) =
       match mountNode (props (this w)) with
       | Some m => Some m
       | None => body (env w)
       end).
Proof.
  split.
  - intros Hm Hb. unfold render, bind, get. cbn beta iota.
    destruct (negb (mounted (state (this w)))); [done|].
    destruct (negb _ && negb _); [done|].
    unfold getMountNode. by rewrite Hm, Hb.
  - intros p w' (_ & _ & n & t & Hn & _ & ->)%render_inv.
    unfold getMountNode in Hn. cbn [portal_container]. by rewrite <- Hn.
Qed.

Lemma portal_container_is_mount_node_witness :
  exists p w',
    render (on_this (with_props (setMountNode (Some drawer) (props (this opened))))
                    opened) = Some (Some p, w') /\
    portal_container p = drawer.
Proof.
  destruct (render (on_this (with_props (setMountNode (Some drawer)
                                           (props (this opened)))) opened))
    as [[[p|] w']|] eqn:H; [|by vm_compute in H..].
  exists p, w'. split; [done|].
  destruct (portal_container_is_mount_node
              (on_this (with_props (setMountNode (Some drawer)
                                      (props (this opened)))) opened))
    as [_ Hc].
  apply Hc in H. by injection H as ->.
Defined.

(** ** Events never fail, autofocus apart *)

Lemma total_click n : total (click n).
Proof.
  unfold click. destruct (onClickOf n) as [[]|];
    auto using total_onBackdropClick, total_onCloseClick, total_ret.
Qed.

Lemma componentDidUpdate_ok pp ps (w : World) :
  refs_focusable w -> exists w', componentDidUpdate pp ps w = Some (tt, w').
Proof.
  intros Hf. rewrite componentDidUpdate_eq.
  destruct (transition pp ps w); [|by eexists].
  destruct (isOpen (props (this w))).
  - apply open_ok. by right.
  - apply total_unit, total_close.
Qed.

Lemma render_then_update_ok pp ps (w : World) :
  refs_focusable w ->
  exists w', (render ;;; componentDidUpdate pp ps) w = Some (tt, w').
Proof.
  intros Hf. destruct (total_render w) as [[out w1] Hr].
  rewrite (bind_run _ _ _ _ _ Hr). apply componentDidUpdate_ok.
  keep refCurrentOf Hr. unfold refCurrentOf, refs_focusable in *.
  by rewrite K.
Qed.

Lemma step_enabled e (w w' : World) :
  step e w = Some (tt, w') -> enabled e w = true.
Proof.
  destruct e as [|p| |event|s|d|id|id|a|r a]; unfold step, enabled; try done;
    intros H; apply bind_Some in H as (x & w0 & [= <- <-] & H).
  - by case_bool_decide.
  - by case_bool_decide.
  - by case_bool_decide.
  - by destruct (clicked s w).
  - destruct (timeouts (env w) !! id) as [[due cb]|]; [|done].
    apply bind_Some in H as (n & w0 & [= <- <-] & H).
    by case_bool_decide.
  - by destruct (frames (env w) !! id).
Qed.

(** X19: when every element attached to a ref can take the focus, an
    event succeeds exactly when it can happen: no handler, lifecycle method
    or scheduled callback ends in an error. *)
Theorem enabled_events_succeed e (w : World) :
  refs_focusable w ->
  enabled e w = true <-> exists w', step e w = Some (tt, w').
Proof.
  intros Hf. split; [|intros [w' H]; by eapply step_enabled].
  destruct e as [|p| |event|s|d|id|id|a|r a]; unfold enabled, step; intros He.
  - (* mount *)
    rewrite (bind_run _ _ w _ w eq_refl). rewrite He.
    rewrite (bind_run _ _ w _ (on_env (with_phase Attached) w) eq_refl).
    destruct (total_render (on_env (with_phase Attached) w)) as [[out w1] Hr].
    rewrite (bind_run _ _ _ _ _ Hr).
    keep refCurrentOf Hr. keep core Hr. unfold core in K0. wsimpl.
    injection K0 as _ _ Hph.
    unfold componentDidMount, setState.
    rewrite (bind_run _ _ w1 _ w1 eq_refl).
    rewrite bool_decide_eq_true_2 by done.
    rewrite (bind_run _ _ w1 _ w1 eq_refl), (bind_run _ _ w1 _ w1 eq_refl).
    rewrite (bind_run _ _ w1 _ _ eq_refl).
    apply render_then_update_ok.
    unfold refCurrentOf, refs_focusable in *. wsimpl. by rewrite K.
  - (* props *)
    rewrite (bind_run _ _ w _ w eq_refl). rewrite He.
    rewrite (bind_run _ _ w _ w eq_refl), (bind_run _ _ w _ w eq_refl).
    rewrite (bind_run _ _ w _ (on_this (with_props p) w) eq_refl).
    by apply render_then_update_ok.
  - (* unmount *)
    rewrite (bind_run _ _ w _ w eq_refl). rewrite He.
    destruct (total_unit _ w total_componentWillUnmount) as [w1 Hu].
    rewrite (bind_run _ _ _ _ _ Hu). by eexists.
  - rewrite (bind_run _ _ w _ w eq_refl).
    destruct (keyupListener (env w)); [|by eexists].
    apply total_unit, total_onDocumentKeyPress.
  - rewrite (bind_run _ _ w _ w eq_refl).
    destruct (clicked s w) as [n|]; [|done].
    apply total_unit, total_click.
  - by eexists.
  - rewrite (bind_run _ _ w _ w eq_refl).
    destruct (timeouts (env w) !! id) as [[due cb]|]; [|done].
    rewrite (bind_run _ _ w _ w eq_refl). rewrite He.
    rewrite (bind_run _ _ w _ _ eq_refl). apply runCallback_ok.
  - rewrite (bind_run _ _ w _ w eq_refl).
    destruct (frames (env w) !! id) as [cb|]; [|done].
    rewrite (bind_run _ _ w _ _ eq_refl). apply runCallback_ok.
  - by eexists.
  - by eexists.
Qed.

Lemma enabled_events_succeed_witness :
  (exists w', step (ESetProps (setOpen true demoProps)) attached = Some (tt, w')) /\
  enabled (EFrame 1%positive) idle = false /\
  enabled (ESetProps (setOpen true demoProps)) attachedToIcon = true /\
  step (ESetProps (setOpen true demoProps)) attachedToIcon = None.
Proof.
  assert (refs_focusable attached) as Hf.
  { assert (map_to_list (refCurrent (env attached))
            = [(OwnRef 1, dialogNode); (OwnRef 0, rootNode)]) as E
      by (vm_compute; reflexivity).
    intros r d Hd. apply elem_of_map_to_list in Hd. rewrite E in Hd.
    repeat (apply elem_of_cons in Hd as [[= -> ->]|Hd]; [reflexivity|]).
    by apply elem_of_nil in Hd. }
  split; [|split; [|split]].
  - apply (enabled_events_succeed _ _ Hf). reflexivity.
  - reflexivity.
  - reflexivity.
  - vm_compute. reflexivity.
Defined.
